(** * AI Storyboard Pro: the project model, the generation service and the
      batch orchestration of [App.tsx] and [services/geminiService.ts],
      embedded in Rocq.

    Conventions of the embedding.
    - A JavaScript string is a [string] whose characters are UTF-16 code
      units below 256 (Latin-1); every literal of the source fits.  Code
      units from 256 on are outside the type.
    - [number] fields hold integers here ([Z]): [sceneNumber] is produced
      as [scenes.length + idx + 1] or asked from the service as an INTEGER.
      A JavaScript number is a double: an integer is printed as the
      double nearest to it is ([JS.string_of_number]).
    - An optional property ([x?: T]) is an [option]; [undefined] is [None].
    - A React state cell is a field of [AppState]; a handler reads the
      cells of the render it was created in (its closure) and writes the
      live cells, either with a value or with an updater function of the
      previous value.
    - Effects that leave the component (requests of the generation client,
      [alert], [console.error], timers, the download) are recorded, in
      order, in a trace. *)

From Stdlib Require Import ZArith Ascii String DecimalString Lia.
From stdpp Require Import base list strings.

Set Default Proof Using "Type".
Set Warnings "-register-all".

(* ===================================================================== *)
(** * JavaScript strings and truthiness *)
(* ===================================================================== *)

Module JS.

(** The quotation mark, for the template literals that contain one. *)
Definition dquote : string := String (ascii_of_nat 34) EmptyString.

(** Literals of this file are UTF-8; [latin1] turns the two-byte
    sequences of U+0080..U+00FF into the single code unit they encode. *)
Fixpoint latin1 (s : string) : string :=
  match s with
  | EmptyString => EmptyString
  | String c s' =>
      match nat_of_ascii c, s' with
      | 194, String d s'' => String d (latin1 s'')
      | 195, String d s'' => String (ascii_of_nat (nat_of_ascii d + 64)) (latin1 s'')
      | _, _ => String c (latin1 s')
      end
  end.

(** ECMAScript WhiteSpace and LineTerminator code units below 256:
    TAB, LF, VT, FF, CR, SP and NBSP. *)
Definition isWhiteSpace (c : ascii) : bool :=
  match c with
  | "009" | "010" | "011" | "012" | "013" | " " | "160" => true
  | _ => false
  end%char.

Fixpoint trimStart (s : string) : string :=
  match s with
  | EmptyString => EmptyString
  | String c s' => if isWhiteSpace c then trimStart s' else s
  end.

Fixpoint trimEnd (s : string) : string :=
  match s with
  | EmptyString => EmptyString
  | String c s' =>
      match trimEnd s' with
      | EmptyString => if isWhiteSpace c then EmptyString else String c EmptyString
      | t => String c t
      end
  end.

(** [String.prototype.trim] *)
Definition trim (s : string) : string := trimEnd (trimStart s).

(** [s.split(sep)] for a separator of one character: never the empty
    list, [split sep ""] is [[""]]. *)
Fixpoint split (sep : ascii) (s : string) : list string :=
  match s with
  | EmptyString => [EmptyString]
  | String c s' =>
      if Ascii.eqb c sep then EmptyString :: split sep s'
      else match split sep s' with
           | h :: t => String c h :: t
           | [] => [String c EmptyString]
           end
  end.

(** [xs.join(sep)] *)
Fixpoint join (sep : string) (xs : list string) : string :=
  match xs with
  | [] => EmptyString
  | [x] => x
  | x :: rest => x +:+ sep +:+ join sep rest
  end.

(** Truthiness of a string: every string but the empty one. *)
Definition truthy (s : string) : bool :=
  match s with EmptyString => false | _ => true end.

(** Truthiness of an optional string / boolean property. *)
Definition truthy_opt (o : option string) : bool :=
  match o with Some s => truthy s | None => false end.

Definition truthy_flag (o : option bool) : bool :=
  match o with Some b => b | None => false end.

(** [xs.includes(x)] on an array of strings *)
Definition includes (xs : list string) (x : string) : bool :=
  bool_decide (x ∈ xs).

(** The decimal numeral of an integer. *)
Definition numeral (z : Z) : string :=
  NilZero.string_of_int (Z.to_int z).

(** The number of decimal digits of a positive integer. *)
Definition digits (x : Z) : Z := Z.of_nat (String.length (numeral x)).

(** The double nearest to a positive integer, ties going to the even
    significand; [None] is [Infinity].  Below 2^53 every integer is a
    double. *)
Definition toDouble (a : Z) : option Z :=
  if (a <? 9007199254740992)%Z then Some a
  else
    let e := (Z.log2 a - 52)%Z in
    let q := Z.shiftr a e in
    let r := (a - Z.shiftl q e)%Z in
    let half := Z.shiftl 1 (e - 1) in
    let q' := if (half <? r)%Z || ((half =? r)%Z && Z.odd q) then (q + 1)%Z else q in
    let x := Z.shiftl q' e in
    if (Z.shiftl 1 1024 <=? x)%Z then None else Some x.

(** Whether the integer [v] is read as the double [x], an integer from
    2^53 on: [v] is within half a step of [x], the step below a power of
    two being half the step above it, and a tie is read as the double of
    even significand.  The bounds are taken four times over. *)
Definition readsAs (x v : Z) : bool :=
  let e := (Z.log2 x - 52)%Z in
  let m := Z.shiftr x e in
  let below := if (m =? 4503599627370496)%Z then Z.shiftl 1 e else Z.shiftl 1 (e + 1) in
  let above := Z.shiftl 1 (e + 1) in
  let lo := (4 * x - below)%Z in
  let hi := (4 * x + above)%Z in
  if Z.even m then (lo <=? 4 * v)%Z && (4 * v <=? hi)%Z
  else (lo <? 4 * v)%Z && (4 * v <? hi)%Z.

(** The integer of [k] significant digits nearest to [x] among those read
    as [x], if there is one; of two as near, the one of even last digit. *)
Definition candidate (x k : Z) : option Z :=
  let D := digits x in
  if (D <=? k)%Z then Some x
  else
    let p := (10 ^ (D - k))%Z in
    let v1 := (x / p * p)%Z in
    let v2 := (v1 + p)%Z in
    match readsAs x v1, readsAs x v2 with
    | true, true =>
        if (x - v1 <? v2 - x)%Z then Some v1
        else if (v2 - x <? x - v1)%Z then Some v2
        else if Z.even (x / p) then Some v1 else Some v2
    | true, false => Some v1
    | false, true => Some v2
    | false, false => None
    end.

(** The integer of fewest significant digits that is read as [x]. *)
Fixpoint shortest (x : Z) (ks : list Z) : Z :=
  match ks with
  | [] => x
  | k :: ks' =>
      match candidate x k with
      | Some v => v
      | None => shortest x ks'
      end
  end.

Fixpoint dropZeros (fuel : nat) (v : Z) : Z :=
  match fuel with
  | O => v
  | S fuel' =>
      if (v mod 10 =? 0)%Z && negb (v =? 0)%Z then dropZeros fuel' (v / 10) else v
  end.

(** [d.ddde+n] *)
Definition exponential (v : Z) : string :=
  let n := digits v in
  match numeral (dropZeros (Z.to_nat n) v) with
  | String d EmptyString => String d ("e+" +:+ numeral (n - 1))
  | String d rest => String d ("." +:+ rest +:+ "e+" +:+ numeral (n - 1))
  | EmptyString => EmptyString
  end.

(** Number::toString of a double that is an integer from 2^53 on: its
    shortest digits, followed by zeros up to 21 digits in all and in
    exponent notation from 1e21 on. *)
Definition string_of_double (x : Z) : string :=
  let v := shortest x (Z.of_nat <$> seq 1 17) in
  if (digits v <=? 21)%Z then numeral v else exponential v.

(** A number in a template literal.  Below 2^53 in magnitude that is the
    decimal numeral of the integer. *)
Definition string_of_number (z : Z) : string :=
  if (Z.abs z <? 9007199254740992)%Z then numeral z
  else
    match toDouble (Z.abs z) with
    | Some x => (if (z <? 0)%Z then "-" else "") +:+ string_of_double x
    | None => if (z <? 0)%Z then "-Infinity" else "Infinity"
    end.

Definition LF : ascii := "010"%char.
Definition nl : string := String LF EmptyString.

End JS.

(* ===================================================================== *)
(** * Data model ([types.ts]) *)
(* ===================================================================== *)

Record Character := mkCharacter {
  id : string;
  name : string;
  prompt : string;
  referenceImage : option string
}.

Record Scene := mkScene {
  sceneNumber : Z;
  textExcerpt : string;
  characters : string;
  selectedCharacterIds : option (list string);
  visualPrompt : string;
  imageUrl : option string;
  isGeneratingImage : option bool
}.

(** The keys of [Character] ([keyof Character]). *)
Inductive CharacterKey := K_id | K_name | K_prompt | K_referenceImage.

(** [{ ...c, [field]: value }] *)
Definition Character_with (c : Character) (field : CharacterKey) (value : string)
  : Character :=
  match field with
  | K_id => mkCharacter value (name c) (prompt c) (referenceImage c)
  | K_name => mkCharacter (id c) value (prompt c) (referenceImage c)
  | K_prompt => mkCharacter (id c) (name c) value (referenceImage c)
  | K_referenceImage => mkCharacter (id c) (name c) (prompt c) (Some value)
  end.

(** Object spreads over a scene that replace one or two properties. *)
Definition with_selectedCharacterIds (ids : option (list string)) (s : Scene) : Scene :=
  mkScene (sceneNumber s) (textExcerpt s) (characters s) ids
          (visualPrompt s) (imageUrl s) (isGeneratingImage s).

Definition with_visualPrompt (p : string) (s : Scene) : Scene :=
  mkScene (sceneNumber s) (textExcerpt s) (characters s) (selectedCharacterIds s)
          p (imageUrl s) (isGeneratingImage s).

Definition with_isGeneratingImage (b : bool) (s : Scene) : Scene :=
  mkScene (sceneNumber s) (textExcerpt s) (characters s) (selectedCharacterIds s)
          (visualPrompt s) (imageUrl s) (Some b).

Definition with_image (url : string) (b : bool) (s : Scene) : Scene :=
  mkScene (sceneNumber s) (textExcerpt s) (characters s) (selectedCharacterIds s)
          (visualPrompt s) (Some url) (Some b).

(* ===================================================================== *)
(** * Component state ([useState] cells of [App]) and the effect trace *)
(* ===================================================================== *)

Record AppState := mkApp {
  style : string;
  story : string;
  batchScenesText : string;
  scenes : list Scene;
  casting : list Character;
  isGeneratingStoryboard : bool;
  error : option string
}.

Definition initialState : AppState :=
  mkApp "dark fantasy ink illustration como Junji Ito" "" "" [] [] false None.

Definition setStyle (v : string) (a : AppState) : AppState :=
  mkApp v (story a) (batchScenesText a) (scenes a) (casting a)
        (isGeneratingStoryboard a) (error a).
Definition setStory (v : string) (a : AppState) : AppState :=
  mkApp (style a) v (batchScenesText a) (scenes a) (casting a)
        (isGeneratingStoryboard a) (error a).
Definition setBatchScenesText (v : string) (a : AppState) : AppState :=
  mkApp (style a) (story a) v (scenes a) (casting a)
        (isGeneratingStoryboard a) (error a).
Definition setScenes (v : list Scene) (a : AppState) : AppState :=
  mkApp (style a) (story a) (batchScenesText a) v (casting a)
        (isGeneratingStoryboard a) (error a).
Definition setCasting (v : list Character) (a : AppState) : AppState :=
  mkApp (style a) (story a) (batchScenesText a) (scenes a) v
        (isGeneratingStoryboard a) (error a).
Definition setIsGeneratingStoryboard (v : bool) (a : AppState) : AppState :=
  mkApp (style a) (story a) (batchScenesText a) (scenes a) (casting a) v (error a).
Definition setError (v : option string) (a : AppState) : AppState :=
  mkApp (style a) (story a) (batchScenesText a) (scenes a) (casting a)
        (isGeneratingStoryboard a) v.

(** [setScenes(prev => f(prev))] *)
Definition updateScenes (f : list Scene → list Scene) (a : AppState) : AppState :=
  setScenes (f (scenes a)) a.

(* ===================================================================== *)
(** * The generation client as the code uses it ([@google/genai]) *)
(* ===================================================================== *)

(** A thrown [Error]: the code tells errors apart by their message only. *)
Record Error := mkError { message : string }.

Module Genai.

Record InlineData := mkInlineData { mimeType : string; data : string }.

(** A part of a request or of a response: [{ inlineData }] or [{ text }]. *)
Module Part.
Record t := mk { inlineData : option InlineData; text : option string }.
End Part.

Record Content := mkContent { parts : option (list Part.t) }.
Record Candidate := mkCandidate { content : option Content }.

Module Response.
Record t := mk { text : option string; candidates : option (list Candidate) }.
End Response.

(** [responseSchema] values ([Type.ARRAY], [Type.OBJECT], ...). *)
Inductive Schema :=
| ARRAY (items : Schema)
| OBJECT (properties : list (string * Schema)) (required : list string)
| INTEGER (description : string)
| STRING (description : string).

Inductive Contents :=
| OfText (prompt : string)            (* [contents: prompt] *)
| OfParts (parts : list Part.t).      (* [contents: { parts }] *)

Inductive Config :=
| NoConfig
| JsonConfig (responseMimeType : string) (responseSchema : Schema)
| ImageConfig (aspectRatio : string).

Record Request := mkRequest {
  model : string;
  contents : Contents;
  config : Config
}.

End Genai.

(* ===================================================================== *)
(** * Files of the import and export handlers *)
(* ===================================================================== *)

(** The object [{ style, story, casting, scenes }] of the project file.  A
    key whose value is [undefined] is not written by [JSON.stringify] and
    reads [undefined] after [JSON.parse]: both are [None]. *)
Module ProjectData.
Record t := mk {
  style : option string;
  story : option string;
  casting : option (list Character);
  scenes : option (list Scene)
}.
End ProjectData.

(** What [JSON.parse] makes of a document, as far as [handleImport] can
    tell: reading a property of [null] throws, a number, a string, a
    boolean or an array has none of the four keys, an object has those it
    has.  The state is typed, so an object is taken with values of the
    declared types under the keys it has. *)
Inductive JsonValue :=
| JNull
| JOther
| JObject (projectData : ProjectData.t).

(** The text of a file, up to what [JSON.parse] does with it: it throws
    [err] or it returns a value. *)
Inductive FileContent :=
| Malformed (err : Error)
| Document (v : JsonValue).

Definition JSON_parse (content : FileContent) : Error + JsonValue :=
  match content with
  | Malformed err => inl err
  | Document v => inr v
  end.

(** JSON documents: what [JSON.stringify] writes of the project, and what
    a property read finds in what [JSON.parse] returns.  A text is taken
    up to its white space and to the spelling of its strings and numbers,
    that is as the tree it denotes. *)
Module Json.

Inductive t :=
| Null
| Bool (b : bool)
| Number (z : Z)
| Str (s : string)
| Array (items : list t)
| Object (properties : list (string * t)).

(** A property whose value is [undefined] is not written. *)
Definition property {A} (key : string) (f : A → t) (value : option A)
  : list (string * t) :=
  match value with
  | Some v => [(key, f v)]
  | None => []
  end.

(** The document of a character, of a scene and of the project.  The
    order of the keys is that of the declarations; a read is by key. *)
Definition of_character (c : Character) : t :=
  Object ([("id", Str (id c)); ("name", Str (name c)); ("prompt", Str (prompt c))]
          ++ property "referenceImage" Str (referenceImage c)).

Definition of_scene (s : Scene) : t :=
  Object ([("sceneNumber", Number (sceneNumber s));
           ("textExcerpt", Str (textExcerpt s));
           ("characters", Str (characters s))]
          ++ property "selectedCharacterIds" (λ ids, Array (Str <$> ids))
                      (selectedCharacterIds s)
          ++ [("visualPrompt", Str (visualPrompt s))]
          ++ property "imageUrl" Str (imageUrl s)
          ++ property "isGeneratingImage" Bool (isGeneratingImage s)).

Definition of_projectData (projectData : ProjectData.t) : t :=
  Object (property "style" Str (ProjectData.style projectData)
          ++ property "story" Str (ProjectData.story projectData)
          ++ property "casting" (λ cs, Array (of_character <$> cs))
                      (ProjectData.casting projectData)
          ++ property "scenes" (λ scs, Array (of_scene <$> scs))
                      (ProjectData.scenes projectData)).

(** The last member of a name is the one [JSON.parse] keeps. *)
Fixpoint member (key : string) (properties : list (string * t)) : option t :=
  match properties with
  | [] => None
  | (k, v) :: rest =>
      match member key rest with
      | Some v' => Some v'
      | None => if String.eqb k key then Some v else None
      end
  end.

(** [value[key]], [None] for [undefined]: only an object has members. *)
Definition get (key : string) (value : t) : option t :=
  match value with
  | Object properties => member key properties
  | _ => None
  end.

(** Values of the declared types.  [None] is a value the typed state
    cannot hold. *)
Definition asString (value : t) : option string :=
  match value with Str s => Some s | _ => None end.
Definition asNumber (value : t) : option Z :=
  match value with Number z => Some z | _ => None end.
Definition asBool (value : t) : option bool :=
  match value with Bool b => Some b | _ => None end.
Definition asArray {A} (f : t → option A) (value : t) : option (list A) :=
  match value with Array items => mapM f items | _ => None end.

(** A property of the interface: [key: T] and [key?: T]. *)
Definition required {A} (key : string) (f : t → option A) (value : t)
  : option A :=
  get key value ≫= f.
Definition optional {A} (key : string) (f : t → option A) (value : t)
  : option (option A) :=
  match get key value with
  | Some v => Some <$> f v
  | None => Some None
  end.

Definition asCharacter (value : t) : option Character :=
  id ← required "id" asString value;
  name ← required "name" asString value;
  prompt ← required "prompt" asString value;
  referenceImage ← optional "referenceImage" asString value;
  Some (mkCharacter id name prompt referenceImage).

Definition asScene (value : t) : option Scene :=
  sceneNumber ← required "sceneNumber" asNumber value;
  textExcerpt ← required "textExcerpt" asString value;
  characters ← required "characters" asString value;
  selectedCharacterIds ← optional "selectedCharacterIds" (asArray asString) value;
  visualPrompt ← required "visualPrompt" asString value;
  imageUrl ← optional "imageUrl" asString value;
  isGeneratingImage ← optional "isGeneratingImage" asBool value;
  Some (mkScene sceneNumber textExcerpt characters selectedCharacterIds
                visualPrompt imageUrl isGeneratingImage).

(** The value of a document as [handleImport] reads it, when the four
    keys hold values of the declared types where they are present. *)
Definition typed (document : t) : option JsonValue :=
  match document with
  | Null => Some JNull
  | Object _ =>
      style ← optional "style" asString document;
      story ← optional "story" asString document;
      casting ← optional "casting" (asArray asCharacter) document;
      scenes ← optional "scenes" (asArray asScene) document;
      Some (JObject (ProjectData.mk style story casting scenes))
  | _ => Some JOther
  end.

End Json.

(** [JSON.stringify(projectData, null, 2)], as the content of the file
    that holds it: the document written, read as [JSON.parse] and the
    handler read it.  Every document of a project has a typed reading
    ([typed_of_projectData]). *)
Definition JSON_stringify (projectData : ProjectData.t) : FileContent :=
  match Json.typed (Json.of_projectData projectData) with
  | Some v => Document v
  | None => Document JOther
  end.

(** JSZip as [handleExport] uses it. *)
Module JSZip.

(** The characters of base64, with the padding. *)
Definition base64_char (c : ascii) : bool :=
  let n := nat_of_ascii c in
  (65 <=? n) && (n <=? 90) || (97 <=? n) && (n <=? 122)
  || (48 <=? n) && (n <=? 57) || (n =? 43) || (n =? 47) || (n =? 61).

(** The decoder drops every other character. *)
Fixpoint strip (input : string) : string :=
  match input with
  | EmptyString => EmptyString
  | String c rest => if base64_char c then String c (strip rest) else strip rest
  end.

(** Whether the decoder takes the content of a file written with
    [{ base64: true }]: it throws on a content that starts like a data
    URL and on one whose characters are not a whole number of groups of
    four. *)
Definition decodes (input : string) : bool :=
  negb (String.prefix "data:" input)
  && (String.length (strip input) mod 4 =? 0).

(** [folder.file(name, data, { base64: true })]: a folder has one file of
    a name; a second write replaces the content of the first and keeps
    its place. *)
Fixpoint file (name data : string) (files : list (string * string))
  : list (string * string) :=
  match files with
  | [] => [(name, data)]
  | (n, d) :: rest =>
      if String.eqb n name then (name, data) :: rest
      else (n, d) :: file name data rest
  end.

(** [zip.generateAsync] resolves when every file decodes; it rejects
    otherwise. *)
Definition generates (files : list (string * string)) : bool :=
  forallb (λ f, decodes f.2) files.

End JSZip.

(** The archive built with JSZip: the project file, and the files of the
    [images] folder by name, each with the base64 text it was written
    from. *)
Record Archive := mkArchive {
  project_file : string * FileContent;
  images_folder : list (string * string)
}.

(* ===================================================================== *)
(** * Effects *)
(* ===================================================================== *)

Inductive Event :=
| NetCall (apiKey : string) (request : Genai.Request)
    (* [ai.models.generateContent(request)] on a client made with [apiKey] *)
| ConsoleError (args : list string)
| Alert (msg : string)
| Sleep (ms : nat)                       (* [setTimeout(resolve, ms)], awaited *)
| Download (filename : string) (zip : Archive).

Record World := mkWorld { app : AppState; trace : list Event }.

(** A write to the live state, and an effect. *)
Definition write (f : AppState → AppState) (w : World) : World :=
  mkWorld (f (app w)) (trace w).
Definition emit (evs : list Event) (w : World) : World :=
  mkWorld (app w) (trace w ++ evs).

(** Asynchronous service code: it sees and extends the trace, and either
    throws or returns. *)
Definition IO (A : Type) : Type := list Event → list Event * (Error + A).

Definition throw {A} (e : Error) : IO A := λ tr, (tr, inl e).
Definition log (ev : Event) : IO unit := λ tr, (tr ++ [ev], inr tt).

#[global] Instance IO_ret : MRet IO := λ A a tr, (tr, inr a).
#[global] Instance IO_bind : MBind IO := λ A B f m tr,
  match m tr with
  | (tr', inr a) => f a tr'
  | (tr', inl e) => (tr', inl e)
  end.

(* ===================================================================== *)
(** * [services/geminiService.ts] *)
(* ===================================================================== *)

Definition MISSING_KEY : Error := mkError "GEMINI_API_KEY is missing".
Definition NO_RESPONSE : Error := mkError "Nenhuma resposta recebida da IA.".
Definition BAD_JSON : Error :=
  mkError "Erro ao interpretar a resposta da IA como JSON.".
Definition NO_IMAGE : Error := mkError "Nenhuma imagem retornada pela IA.".

(** [`- ${c.name}: ${c.prompt}`] *)
Definition character_line (c : Character) : string :=
  "- " +:+ name c +:+ ": " +:+ prompt c.

(** [str.match(/^data:(image\/\w+);base64,(.+)$/)], by its two groups. *)
Module DataUri.

(** [\w] *)
Definition word_char (c : ascii) : bool :=
  let n := nat_of_ascii c in
  (48 <=? n) && (n <=? 57) || (65 <=? n) && (n <=? 90)
  || (97 <=? n) && (n <=? 122) || (n =? 95).

(** [.] without the [s] flag: any character but a line terminator. *)
Definition dot_char (c : ascii) : bool :=
  negb (Ascii.eqb c "010" || Ascii.eqb c "013")%char.

Fixpoint strip_prefix (p s : string) : option string :=
  match p, s with
  | EmptyString, _ => Some s
  | String a p', String b s' => if Ascii.eqb a b then strip_prefix p' s' else None
  | String _ _, EmptyString => None
  end.

(** The longest run of [\w] at the head of [s], and what follows it.  The
    character after [\w+] in the pattern is [;], which is not a word
    character, so only the longest run can be followed by a match. *)
Fixpoint span_word (s : string) : string * string :=
  match s with
  | String c s' =>
      if word_char c then let '(w, r) := span_word s' in (String c w, r)
      else (EmptyString, s)
  | EmptyString => (EmptyString, EmptyString)
  end.

Fixpoint all_dot (s : string) : bool :=
  match s with
  | EmptyString => true
  | String c s' => dot_char c && all_dot s'
  end.

(** [Some (match[1], match[2])], or [None] for [null]. *)
Definition exec (s : string) : option (string * string) :=
  match strip_prefix "data:image/" s with
  | None => None
  | Some r1 =>
      let '(w, r2) := span_word r1 in
      match w with
      | EmptyString => None
      | _ =>
          match strip_prefix ";base64," r2 with
          | None => None
          | Some payload =>
              if JS.truthy payload && all_dot payload
              then Some ("image/" +:+ w, payload)
              else None
          end
      end
  end.

End DataUri.

(** The schema the storyboard request asks the answer in. *)
Definition storyboardSchema : Genai.Schema :=
  Genai.ARRAY
    (Genai.OBJECT
       [ ("sceneNumber",
          Genai.INTEGER (JS.latin1 "O número sequencial da cena"));
         ("textExcerpt",
          Genai.STRING
            "O trecho exato do texto original correspondente a esta cena");
         ("characters",
          Genai.STRING
            (JS.latin1 "A lista e descrição dos personagens na cena"));
         ("visualPrompt",
          Genai.STRING
            (JS.latin1 "O prompt visual detalhado para a IA de imagem (em inglês, pois a maioria das IAs de imagem entende melhor inglês)")) ]
       [ "sceneNumber"; "textExcerpt"; "characters"; "visualPrompt" ]).

Definition storyboardPrompt (style story : string) : string :=
  JS.latin1 "Você é um especialista em adaptação de narrativas para geração de imagens por IA.
Siga estes passos exatamente:

1. Estilo Global: O usuário escolheu o estilo: " +:+ JS.dquote +:+ style +:+ JS.dquote +:+
  JS.latin1 ". Aplique esse estilo a TODAS as cenas, incluindo: composição, iluminação, paleta de cores/texturas, mood e aspect ratio.
2. Texto de Entrada: Analise o texto longo fornecido abaixo, dividindo-o em cenas lógicas e sequenciais. Cada cena deve durar 3-8 segundos em um vídeo.
3. Para Cada Cena:
   - Trecho do Texto: Inclua o trecho exato do texto original correspondente a esta cena.
   - Personagens: Liste todos os personagens presentes. Mantenha consistência visual entre cenas.
   - Descrição Visual: Crie um prompt pronto para IA de imagem (200-300 palavras), otimizado para alta qualidade: descreva composição precisa, ângulos de câmera, expressões, poses, ambiente, efeitos e o estilo escolhido.

Texto de Entrada:
" +:+ story.

Definition scenePromptHead (style textExcerpt : string) : string :=
  JS.latin1 "Você é um especialista em adaptação de narrativas para geração de imagens por IA.
Crie um prompt visual (em inglês, 200-300 palavras) para a seguinte cena.
Estilo Global: " +:+ JS.dquote +:+ style +:+ JS.dquote +:+ "
Trecho da Cena: " +:+ JS.dquote +:+ textExcerpt +:+ JS.dquote +:+ JS.nl.

Definition scenePromptTail : string :=
  JS.nl +:+ JS.latin1 "Descreva composição precisa, ângulos de câmera, expressões, poses, ambiente, efeitos e o estilo escolhido. Retorne APENAS o prompt visual em inglês, sem explicações adicionais.".

Section Service.

(** [process.env.GEMINI_API_KEY] *)
Variable GEMINI_API_KEY : option string.

(** The remote service behind [ai.models.generateContent]: it resolves
    with a response or rejects with an error, and may take into account
    everything that happened before the call. *)
Variable generateContent :
  list Event → string → Genai.Request → Error + Genai.Response.t.

(** [JSON.parse] of a response text read as [Scene[]]; [None] when it
    throws. *)
Variable JSON_parse_scenes : string → option (list Scene).

(** [await ai.models.generateContent(request)] with
    [ai = new GoogleGenAI({ apiKey })] *)
Definition ai_generateContent (apiKey : string) (request : Genai.Request)
  : IO Genai.Response.t :=
  λ tr, (tr ++ [NetCall apiKey request], generateContent tr apiKey request).

Definition generateStoryboard (style story : string) : IO (list Scene) :=
  match GEMINI_API_KEY with
  | None | Some EmptyString => throw MISSING_KEY
  | Some apiKey =>
      response ← ai_generateContent apiKey
        (Genai.mkRequest "gemini-3.1-pro-preview"
           (Genai.OfText (storyboardPrompt style story))
           (Genai.JsonConfig "application/json" storyboardSchema));
      match Genai.Response.text response with
      | None | Some EmptyString => throw NO_RESPONSE
      | Some text =>
          match JSON_parse_scenes text with
          | Some scenes => mret scenes
          | None =>
              log (ConsoleError ["Failed to parse JSON"; text]);;
              throw BAD_JSON
          end
      end
  end.

(** The text prompt of an image request. *)
Definition fullPrompt (prompt style : string) (characters : list Character)
  : string :=
  let fullPrompt :=
    "Style: " +:+ style +:+ ". " +:+ JS.nl +:+ "Scene description: " +:+ prompt in
  match characters with
  | [] => fullPrompt
  | _ =>
      let fullPrompt := fullPrompt +:+
        (JS.nl +:+ "Characters in scene:" +:+ JS.nl +:+
         JS.join JS.nl (map character_line characters)) in
      fullPrompt +:+
        (JS.nl +:+ "(Please maintain character consistency with the provided reference images if any).")
  end.

(** One turn of [for (const char of characters)]. *)
Definition push_reference (parts : list Genai.Part.t) (char : Character)
  : list Genai.Part.t :=
  match referenceImage char with
  | None | Some EmptyString => parts
  | Some referenceImage =>
      match DataUri.exec referenceImage with
      | Some (mimeType, data) =>
          parts ++ [Genai.Part.mk (Some (Genai.mkInlineData mimeType data)) None]
      | None => parts
      end
  end.

(** The [parts] array when the request is sent. *)
Definition imageParts (prompt style : string) (characters : list Character)
  : list Genai.Part.t :=
  let parts := fold_left push_reference characters [] in
  parts ++ [Genai.Part.mk None (Some (fullPrompt prompt style characters))].

Definition imageRequest (prompt style : string) (characters : list Character)
  : Genai.Request :=
  Genai.mkRequest "gemini-2.5-flash-image"
    (Genai.OfParts (imageParts prompt style characters))
    (Genai.ImageConfig "16:9").

(** [response.candidates?.[0]?.content?.parts || []] *)
Definition responseParts (response : Genai.Response.t) : list Genai.Part.t :=
  match Genai.Response.candidates response with
  | Some (candidate :: _) =>
      match Genai.content candidate with
      | Some content => default [] (Genai.parts content)
      | None => []
      end
  | _ => []
  end.

(** The loop over the response parts: the first part with [inlineData]. *)
Fixpoint firstImage (parts : list Genai.Part.t) : option string :=
  match parts with
  | [] => None
  | part :: rest =>
      match Genai.Part.inlineData part with
      | Some inlineData =>
          Some ("data:image/png;base64," +:+ Genai.data inlineData)
      | None => firstImage rest
      end
  end.

Definition generateImageForScene (prompt style : string)
    (characters : list Character) : IO string :=
  match GEMINI_API_KEY with
  | None | Some EmptyString => throw MISSING_KEY
  | Some apiKey =>
      response ← ai_generateContent apiKey (imageRequest prompt style characters);
      match firstImage (responseParts response) with
      | Some url => mret url
      | None => throw NO_IMAGE
      end
  end.

Definition scenePrompt (style textExcerpt : string) (characters : list Character)
  : string :=
  let prompt := scenePromptHead style textExcerpt in
  let prompt :=
    match characters with
    | [] => prompt
    | _ => prompt +:+ ("Personagens presentes:" +:+ JS.nl +:+
                       JS.join JS.nl (map character_line characters))
    end in
  prompt +:+ scenePromptTail.

Definition scenePromptRequest (style textExcerpt : string)
    (characters : list Character) : Genai.Request :=
  Genai.mkRequest "gemini-3.1-pro-preview"
    (Genai.OfText (scenePrompt style textExcerpt characters))
    Genai.NoConfig.

Definition generatePromptForScene (style textExcerpt : string)
    (characters : list Character) : IO string :=
  match GEMINI_API_KEY with
  | None | Some EmptyString => throw MISSING_KEY
  | Some apiKey =>
      response ← ai_generateContent apiKey
        (scenePromptRequest style textExcerpt characters);
      (* [response.text || ""] *)
      match Genai.Response.text response with
      | None | Some EmptyString => mret EmptyString
      | Some text => mret text
      end
  end.

End Service.

(* ===================================================================== *)
(** * [App.tsx]: the handlers *)
(* ===================================================================== *)

(** Every handler is a function of the closure it was created in (the
    state of the render that made it) and of the world it runs in.  A
    handler is run to its end before the next one starts: events of the
    user in the middle of an asynchronous handler are not modelled. *)
Definition Handler : Type := AppState → World → World.

(** [newScenes = [...prev]; newScenes[index] = f(newScenes[index])].  For an
    index past the end JavaScript would grow the array around an object
    without the properties of a scene, which [Scene] cannot hold; [alter]
    leaves the list as it is there.  No handler below reaches that case
    when it runs alone ([handleGenerateImage_in_range]). *)
Definition assign (index : nat) (f : Scene → Scene) (prev : list Scene)
  : list Scene :=
  alter f index prev.

(** [scene.selectedCharacterIds?.includes(c.id)] as a filter predicate *)
Definition isSelected (scene : Scene) (c : Character) : bool :=
  match selectedCharacterIds scene with
  | Some ids => JS.includes ids (id c)
  | None => false
  end.

(** [casting.filter(c => scene.selectedCharacterIds?.includes(c.id))] *)
Definition selectedChars (closure : AppState) (scene : Scene) : list Character :=
  List.filter (isSelected scene) (casting closure).

(** [ids.filter(cId => cId !== id)] *)
Definition without (id : string) (ids : list string) : list string :=
  List.filter (λ cId, negb (String.eqb cId id)) ids.

(** [scene.imageUrl.split(',')[1]] *)
Definition base64Data (imageUrl : string) : option string :=
  JS.split ","%char imageUrl !! 1.

(** One turn of [scenes.forEach] in [handleExport], on the files of the
    [images] folder. *)
Definition exportImage (imagesFolder : list (string * string)) (scene : Scene)
  : list (string * string) :=
  match imageUrl scene with
  | None | Some EmptyString => imagesFolder
  | Some imageUrl =>
      match base64Data imageUrl with
      | None | Some EmptyString => imagesFolder
      | Some data =>
          JSZip.file ("cena_" +:+ JS.string_of_number (sceneNumber scene) +:+ ".png")
                     data imagesFolder
      end
  end.

Definition projectDataOf (a : AppState) : ProjectData.t :=
  ProjectData.mk (Some (style a)) (Some (story a)) (Some (casting a)) (Some (scenes a)).

Definition TypeError_null : Error :=
  mkError "Cannot read properties of null (reading 'style')".

Definition IMPORT_ALERT : string :=
  JS.latin1 "Erro ao importar o projeto. Arquivo inválido.".

Definition set_if {A} (setter : A → AppState → AppState) (v : option A)
  : AppState → AppState :=
  match v with
  | Some x => setter x
  | None => λ a, a
  end.

Section App.

Variable GEMINI_API_KEY : option string.
Variable generateContent :
  list Event → string → Genai.Request → Error + Genai.Response.t.
Variable JSON_parse_scenes : string → option (list Scene).

(** The handler awaits [zip.generateAsync] outside any [try]: when that
    promise rejects, the handler ends there, the rejection stays
    unhandled and nothing is downloaded. *)
Definition handleExport : Handler := λ closure w,
  let projectData := projectDataOf closure in
  let imagesFolder := fold_left exportImage (scenes closure) [] in
  if JSZip.generates imagesFolder
  then emit [Download "storyboard-project.zip"
               (mkArchive ("storyboard-project.json", JSON_stringify projectData)
                          imagesFolder)] w
  else w.

(** [file] is [event.target.files?.[0]] with the text the reader gives. *)
Definition handleImport (file : option FileContent) : Handler := λ closure w,
  match file with
  | None => w
  | Some content =>
      let failed (err : Error) :=
        emit [ConsoleError ["Failed to parse project file"; message err];
              Alert IMPORT_ALERT] w in
      match JSON_parse content with
      | inl err => failed err
      | inr JNull => failed TypeError_null
      | inr JOther => w
      | inr (JObject projectData) =>
          write (λ a,
            set_if setScenes (ProjectData.scenes projectData)
              (set_if setCasting (ProjectData.casting projectData)
                 (set_if setStory (ProjectData.story projectData)
                    (set_if setStyle (ProjectData.style projectData) a)))) w
      end
  end.

(** [uuid] is the value of [crypto.randomUUID()]. *)
Definition handleAddCharacter (uuid : string) : Handler := λ closure,
  write (setCasting (casting closure ++ [mkCharacter uuid "" "" None])).

Definition handleUpdateCharacter (id' : string) (field : CharacterKey)
    (value : string) : Handler := λ closure,
  write (setCasting
           (map (λ c, if String.eqb (id c) id' then Character_with c field value
                      else c)
                (casting closure))).

Definition handleRemoveCharacter (id' : string) : Handler := λ closure w,
  let w := write (setCasting
                    (List.filter (λ c, negb (String.eqb (id c) id'))
                                 (casting closure))) w in
  write (setScenes
           (map (λ s, with_selectedCharacterIds
                        (without id' <$> selectedCharacterIds s) s)
                (scenes closure))) w.

(** [file] is the data URL the reader gives for [event.target.files?.[0]]. *)
Definition handleCharacterImageUpload (id' : string) (file : option string)
  : Handler := λ closure w,
  match file with
  | None => w
  | Some base64 => handleUpdateCharacter id' K_referenceImage base64 closure w
  end.

Definition handleGenerateStoryboard : Handler := λ closure w,
  if negb (JS.truthy (style closure)) || negb (JS.truthy (story closure)) then
    write (setError (Some (JS.latin1 "Por favor, preencha o estilo e a história."))) w
  else
    let w := write (setIsGeneratingStoryboard true) w in
    let w := write (setError None) w in
    let w := write (setScenes []) w in
    let '(tr, result) :=
      generateStoryboard GEMINI_API_KEY generateContent JSON_parse_scenes
        (style closure) (story closure) (trace w) in
    let w := mkWorld (app w) tr in
    let w :=
      match result with
      | inr generatedScenes =>
          write (setScenes
                   (map (with_selectedCharacterIds (Some [])) generatedScenes)) w
      | inl err =>
          let w := emit [ConsoleError [message err]] w in
          write (setError
                   (Some (if JS.truthy (message err) then message err
                          else "Ocorreu um erro ao gerar o storyboard."))) w
      end in
    write (setIsGeneratingStoryboard false) w.

Definition handleBatchAddScenes : Handler := λ closure w,
  if negb (JS.truthy (JS.trim (batchScenesText closure))) then w
  else
    let lines :=
      List.filter (λ line, 0 <? String.length (JS.trim line))
                  (JS.split JS.LF (batchScenesText closure)) in
    let newScenes :=
      imap (λ idx line,
              mkScene (Z.of_nat (length (scenes closure) + idx + 1))
                      (JS.trim line) "" (Some []) "" None None)
           lines in
    let w := write (setScenes (scenes closure ++ newScenes)) w in
    write (setBatchScenesText "") w.

Definition handleGenerateImage (index : nat) : Handler := λ closure w,
  match scenes closure !! index with
  | None => w
  | Some scene =>
      let w := write (updateScenes (assign index (with_isGeneratingImage true))) w in
      let selectedChars := selectedChars closure scene in
      let '(tr, result) :=
        generateImageForScene GEMINI_API_KEY generateContent
          (visualPrompt scene) (style closure) selectedChars (trace w) in
      let w := mkWorld (app w) tr in
      match result with
      | inr imageUrl =>
          write (updateScenes (assign index (with_image imageUrl false))) w
      | inl err =>
          let w :=
            emit [ConsoleError [message err];
                  Alert ("Erro ao gerar imagem para a cena " +:+
                         JS.string_of_number (sceneNumber scene) +:+ ": " +:+
                         message err)] w in
          write (updateScenes (assign index (with_isGeneratingImage false))) w
      end
  end.

Definition handleGeneratePromptForScene (index : nat) : Handler := λ closure w,
  match scenes closure !! index with
  | None => w
  | Some scene =>
      let selectedChars := selectedChars closure scene in
      let '(tr, result) :=
        generatePromptForScene GEMINI_API_KEY generateContent
          (style closure) (textExcerpt scene) selectedChars (trace w) in
      let w := mkWorld (app w) tr in
      match result with
      | inr prompt =>
          write (updateScenes (assign index (with_visualPrompt prompt))) w
      | inl err =>
          emit [ConsoleError [message err];
                Alert ("Erro ao gerar prompt para a cena " +:+
                       JS.string_of_number (sceneNumber scene) +:+ ": " +:+
                       message err)] w
      end
  end.

(** The test of the loop of [handleGenerateAllImages] on [scenes[i]]. *)
Definition wantsImage (s : Scene) : bool :=
  negb (JS.truthy_opt (imageUrl s)) && negb (JS.truthy_flag (isGeneratingImage s))
  && JS.truthy (visualPrompt s).

(** The body of the [if] of each loop: the call and the pause after it. *)
Definition imageTurn (closure : AppState) (w : World) (i : nat) : World :=
  emit [Sleep 1500] (handleGenerateImage i closure w).

Definition promptTurn (closure : AppState) (w : World) (i : nat) : World :=
  emit [Sleep 1500] (handleGeneratePromptForScene i closure w).

(** [for (let i = 0; i < scenes.length; i++)]: [scenes] is the array of
    the closure all along, so [scenes[i]] is a scene at every turn. *)
Definition handleGenerateAllImages : Handler := λ closure w,
  fold_left
    (λ w i,
       match scenes closure !! i with
       | Some s => if wantsImage s then imageTurn closure w i else w
       | None => w
       end)
    (seq 0 (length (scenes closure))) w.

Definition handleGenerateAllPrompts : Handler := λ closure w,
  fold_left
    (λ w i,
       match scenes closure !! i with
       | Some s =>
           if negb (JS.truthy (visualPrompt s)) then promptTurn closure w i
           else w
       | None => w
       end)
    (seq 0 (length (scenes closure))) w.

(** The updater throws a [TypeError] for an index with no scene; the
    button that calls it is drawn for the scenes on display only, and for
    them the scene of that index gets the new selection. *)
Definition toggleCharacterInScene (sceneIndex : nat) (characterId : string)
  : Handler := λ closure,
  write (updateScenes
           (assign sceneIndex
              (λ scene,
                 let selected := default [] (selectedCharacterIds scene) in
                 if JS.includes selected characterId
                 then with_selectedCharacterIds
                        (Some (without characterId selected)) scene
                 else with_selectedCharacterIds
                        (Some (selected ++ [characterId])) scene))).

(** The handlers written in the markup. *)
Definition onStyleChange (value : string) : Handler := λ closure,
  write (setStyle value).
Definition onStoryChange (value : string) : Handler := λ closure,
  write (setStory value).
Definition onBatchScenesTextChange (value : string) : Handler := λ closure,
  write (setBatchScenesText value).

(** [setScenes(scenes.filter((_, i) => i !== index))] *)
Definition onDeleteScene (index : nat) : Handler := λ closure,
  write (setScenes (delete index (scenes closure))).

(** [newScenes = [...scenes]; newScenes[index].visualPrompt = value]: the
    text area that calls it belongs to the scene of that index (for an
    index with no scene the assignment would throw a [TypeError]). *)
Definition onVisualPromptChange (index : nat) (value : string) : Handler :=
  λ closure,
  write (setScenes (assign index (with_visualPrompt value) (scenes closure))).

End App.

(* ===================================================================== *)
(** * [App.tsx]: what the markup shows *)
(* ===================================================================== *)

(** The image area of a scene card: the picture, the spinner, or the
    button that calls [handleGenerateImage], with its [disabled]. *)
Inductive ImageArea :=
| Picture (src : string)
| Spinner
| GenerateButton (disabled : bool).

Definition imageArea (scene : Scene) : ImageArea :=
  match imageUrl scene with
  | Some (String c url) => Picture (String c url)
  | _ =>
      if JS.truthy_flag (isGeneratingImage scene) then Spinner
      else GenerateButton (negb (JS.truthy (JS.trim (visualPrompt scene))))
  end.

(** [disabled] of the button that calls [handleBatchAddScenes]. *)
Definition batchAddDisabled (a : AppState) : bool :=
  negb (JS.truthy (JS.trim (batchScenesText a))).

(* ===================================================================== *)
(** * Running the component *)
(* ===================================================================== *)

(** A handler called from the render of the current state. *)
Definition fire (h : Handler) (w : World) : World := h (app w) w.

(** What the user and the platform can make the component do. *)
Inductive Action :=
| StyleChange (value : string)
| StoryChange (value : string)
| BatchScenesTextChange (value : string)
| Import (file : option FileContent)
| Export
| AddCharacter (uuid : string)
| UpdateCharacter (id' : string) (field : CharacterKey) (value : string)
| RemoveCharacter (id' : string)
| CharacterImageUpload (id' : string) (file : option string)
| GenerateStoryboard
| BatchAddScenes
| GenerateImage (index : nat)
| GeneratePromptForScene (index : nat)
| GenerateAllImages
| GenerateAllPrompts
| ToggleCharacterInScene (sceneIndex : nat) (characterId : string)
| DeleteScene (index : nat)
| VisualPromptChange (index : nat) (value : string).

Definition castIds (a : AppState) : list string := map id (casting a).

(** The calls the markup of a render makes: the controls of a character
    pass the id of that character and never edit the [id] key, the
    controls of a scene pass the index of that scene, a casting button
    passes the index of its scene and the id of its character. *)
Definition offered (a : AppState) (act : Action) : Prop :=
  match act with
  | UpdateCharacter id' field _ => id' ∈ castIds a ∧ field ≠ K_id
  | RemoveCharacter id' => id' ∈ castIds a
  | CharacterImageUpload id' _ => id' ∈ castIds a
  | GenerateImage index
  | GeneratePromptForScene index
  | DeleteScene index
  | VisualPromptChange index _ => index < length (scenes a)
  | ToggleCharacterInScene sceneIndex characterId =>
      sceneIndex < length (scenes a) ∧ characterId ∈ castIds a
  | _ => True
  end.

Section Run.

Variable GEMINI_API_KEY : option string.
Variable generateContent :
  list Event → string → Genai.Request → Error + Genai.Response.t.
Variable JSON_parse_scenes : string → option (list Scene).

Definition handler (act : Action) : Handler :=
  match act with
  | StyleChange value => onStyleChange value
  | StoryChange value => onStoryChange value
  | BatchScenesTextChange value => onBatchScenesTextChange value
  | Import file => handleImport file
  | Export => handleExport
  | AddCharacter uuid => handleAddCharacter uuid
  | UpdateCharacter id' field value => handleUpdateCharacter id' field value
  | RemoveCharacter id' => handleRemoveCharacter id'
  | CharacterImageUpload id' file => handleCharacterImageUpload id' file
  | GenerateStoryboard =>
      handleGenerateStoryboard GEMINI_API_KEY generateContent JSON_parse_scenes
  | BatchAddScenes => handleBatchAddScenes
  | GenerateImage index =>
      handleGenerateImage GEMINI_API_KEY generateContent index
  | GeneratePromptForScene index =>
      handleGeneratePromptForScene GEMINI_API_KEY generateContent index
  | GenerateAllImages => handleGenerateAllImages GEMINI_API_KEY generateContent
  | GenerateAllPrompts => handleGenerateAllPrompts GEMINI_API_KEY generateContent
  | ToggleCharacterInScene sceneIndex characterId =>
      toggleCharacterInScene sceneIndex characterId
  | DeleteScene index => onDeleteScene index
  | VisualPromptChange index value => onVisualPromptChange index value
  end.

Definition step (act : Action) (w : World) : World := fire (handler act) w.

(** The worlds the component can be in, when only the actions in
    [allowed] are taken. *)
Inductive reachable (allowed : AppState → Action → Prop) : World → Prop :=
| reachable_init : reachable allowed (mkWorld initialState [])
| reachable_step w act :
    reachable allowed w → allowed (app w) act →
    reachable allowed (step act w).

End Run.

(* ===================================================================== *)
(** * Properties of states, texts and errors *)
(* ===================================================================== *)

(** The ids a scene selects. *)
Definition selection (s : Scene) : list string :=
  default [] (selectedCharacterIds s).

(** Referential integrity: every scene selects ids of the cast only. *)
Definition selectionOk (a : AppState) : Prop :=
  Forall (λ s, selection s ⊆ castIds a) (scenes a).

(** An import after which the selections are within the cast (every
    other action passes). *)
Definition importChecked (a : AppState) (act : Action) : Prop :=
  match act with
  | Import file =>
      selectionOk (app (handleImport file a (mkWorld a [])))
  | _ => True
  end.

(** A line that [trim] empties. *)
Definition isBlank (line : string) : bool :=
  bool_decide (JS.trim line = EmptyString).

Fixpoint allWhiteSpace (s : string) : bool :=
  match s with
  | EmptyString => true
  | String c s' => JS.isWhiteSpace c && allWhiteSpace s'
  end.

(** The scene that batch adding makes of a line, at a position. *)
Definition blankScene (number : Z) (excerpt : string) : Scene :=
  mkScene number excerpt "" (Some []) "" None None.

(** The error taxonomy of the specification, over the messages of the
    code. *)
Definition ConfigurationError (e : Error) : Prop := e = MISSING_KEY.
Definition GenerationError (e : Error) : Prop :=
  e ∈ [NO_RESPONSE; BAD_JSON; NO_IMAGE].

(** No credential: [!apiKey]. *)
Definition noCredential (key : option string) : Prop :=
  JS.truthy_opt key = false.

(** A response without usable text: [!response.text]. *)
Definition noText (response : Genai.Response.t) : Prop :=
  JS.truthy_opt (Genai.Response.text response) = false.

(** The requests in a trace, in order. *)
Definition requests (tr : list Event) : list Genai.Request :=
  omap (λ ev, match ev with NetCall _ request => Some request | _ => None end) tr.

(** The pauses in a trace. *)
Definition pauses (tr : list Event) : list nat :=
  omap (λ ev, match ev with Sleep ms => Some ms | _ => None end) tr.

(** The alerts in a trace. *)
Definition alerts (tr : list Event) : list string :=
  omap (λ ev, match ev with Alert msg => Some msg | _ => None end) tr.

(** A project file that is the structured descriptor: a JSON object. *)
Definition isDescriptor (content : FileContent) : Prop :=
  ∃ projectData, content = Document (JObject projectData).

(** The reference image a request can carry for a character: the groups
    of the data URI pattern. *)
Definition conditioning (c : Character) : option Genai.Part.t :=
  match referenceImage c with
  | Some url =>
      match DataUri.exec url with
      | Some (mimeType, data) =>
          Some (Genai.Part.mk (Some (Genai.mkInlineData mimeType data)) None)
      | None => None
      end
  | None => None
  end.

Fixpoint allWord (s : string) : bool :=
  match s with
  | EmptyString => true
  | String c s' => DataUri.word_char c && allWord s'
  end.

(** The network attempt of a service call: none without a credential. *)
Definition attempt (key : option string) (request : Genai.Request) : list Event :=
  match key with
  | None | Some EmptyString => []
  | Some apiKey => [NetCall apiKey request]
  end.

(** What [handleGenerateImage] reports for a failure on a scene. *)
Definition imageFailureEvents (scene : Scene) (err : Error) : list Event :=
  [ConsoleError [message err];
   Alert ("Erro ao gerar imagem para a cena " +:+
          JS.string_of_number (sceneNumber scene) +:+ ": " +:+ message err)].

(** The request of the image of a scene, from a closure. *)
Definition sceneImageRequest (closure : AppState) (scene : Scene) : Genai.Request :=
  imageRequest (visualPrompt scene) (style closure) (selectedChars closure scene).

(** The outcome of the image call of [handleGenerateImage] for a scene. *)
Definition imageOutcome (key : option string)
    (generateContent : list Event → string → Genai.Request → Error + Genai.Response.t)
    (closure : AppState) (scene : Scene) (tr : list Event) : Error + string :=
  (generateImageForScene key generateContent (visualPrompt scene) (style closure)
     (selectedChars closure scene) tr).2.

(** Two scenes that differ in their image and generating flag at most. *)
Definition sameButImage (s s' : Scene) : Prop :=
  sceneNumber s' = sceneNumber s ∧ textExcerpt s' = textExcerpt s ∧
  characters s' = characters s ∧
  selectedCharacterIds s' = selectedCharacterIds s ∧
  visualPrompt s' = visualPrompt s.

(** Two states that differ in their scene list at most. *)
Definition sameButScenes (a a' : AppState) : Prop :=
  a' = setScenes (scenes a') a.

(** [a'] is [a] but for the scenes at the indices in [touched], which keep
    their place and their selection. *)
Definition frameExcept (touched : list nat) (a a' : AppState) : Prop :=
  sameButScenes a a' ∧
  length (scenes a') = length (scenes a) ∧
  selectedCharacterIds <$> scenes a' = selectedCharacterIds <$> scenes a ∧
  ∀ j, j ∉ touched → scenes a' !! j = scenes a !! j.

(** What may follow the run of word characters of the data URI pattern:
    a character that is not one of them, or nothing. *)
Definition word_stop (r : string) : Prop :=
  match r with
  | String c _ => DataUri.word_char c = false
  | EmptyString => True
  end.

(** The scenes the batch of images is meant for, in the words of its
    description: a scene that has no image yet, is not currently
    generating and has a non-empty visual prompt. *)
Definition noImageYet (s : Scene) : Prop :=
  imageUrl s = None ∨ imageUrl s = Some EmptyString.
Definition notGenerating (s : Scene) : Prop :=
  isGeneratingImage s = None ∨ isGeneratingImage s = Some false.
Definition eligible (s : Scene) : Prop :=
  noImageYet s ∧ notGenerating s ∧ visualPrompt s ≠ EmptyString.

#[global] Instance eligible_dec (s : Scene) : Decision (eligible s).
Proof. unfold eligible, noImageYet, notGenerating. apply _. Defined.

(** Their indices, in the order of the list. *)
Definition eligibleIndices (scs : list Scene) : list nat :=
  List.filter (λ i, match scs !! i with
                    | Some s => bool_decide (eligible s)
                    | None => false
                    end)
              (seq 0 (length scs)).

(** The indices of the scenes a batch run of images is for. *)
Definition imageTargets (scs : list Scene) : list nat :=
  List.filter (λ i, match scs !! i with Some s => wantsImage s | None => false end)
              (seq 0 (length scs)).

(** The indices of the scenes a batch run of prompts is for. *)
Definition promptTargets (scs : list Scene) : list nat :=
  List.filter (λ i, match scs !! i with
                    | Some s => negb (JS.truthy (visualPrompt s))
                    | None => false
                    end)
              (seq 0 (length scs)).

(** The request of the prompt of a scene, from a closure. *)
Definition scenePromptRequestOf (closure : AppState) (scene : Scene)
  : Genai.Request :=
  scenePromptRequest (style closure) (textExcerpt scene)
                     (selectedChars closure scene).

(** The outcome of the prompt call of [handleGeneratePromptForScene]. *)
Definition promptOutcome (key : option string)
    (generateContent : list Event → string → Genai.Request → Error + Genai.Response.t)
    (closure : AppState) (scene : Scene) (tr : list Event) : Error + string :=
  (generatePromptForScene key generateContent (style closure) (textExcerpt scene)
     (selectedChars closure scene) tr).2.

(** What [handleGeneratePromptForScene] reports for a failure on a scene. *)
Definition promptFailureEvents (scene : Scene) (err : Error) : list Event :=
  [ConsoleError [message err];
   Alert ("Erro ao gerar prompt para a cena " +:+
          JS.string_of_number (sceneNumber scene) +:+ ": " +:+ message err)].

(** The request of [generateStoryboard]. *)
Definition storyboardRequest (style story : string) : Genai.Request :=
  Genai.mkRequest "gemini-3.1-pro-preview"
    (Genai.OfText (storyboardPrompt style story))
    (Genai.JsonConfig "application/json" storyboardSchema).

(** Scenes numbered by their place: the scene at index [i] has number
    [i + 1]. *)
Definition wellNumbered (scs : list Scene) : Prop :=
  ∀ i s, scs !! i = Some s → sceneNumber s = (Z.of_nat i + 1)%Z.

(** A string without a comma. *)
Fixpoint noComma (s : string) : bool :=
  match s with
  | EmptyString => true
  | String c s' => negb (Ascii.eqb c ","%char) && noComma s'
  end.

(** The data URL [generateImageForScene] makes of a payload. *)
Definition pngUrl (data : string) : string :=
  "data:image/png;base64," +:+ data.

(** The file of the [images] folder for a scene. *)
Definition imageFileName (scene : Scene) : string :=
  "cena_" +:+ JS.string_of_number (sceneNumber scene) +:+ ".png".

(** The entry of the [images] folder for a scene whose image is a PNG data
    URL: the name of its file and the payload of the URL. *)
Definition pngEntry (scene : Scene) : option (string * string) :=
  match imageUrl scene with
  | Some url =>
      (λ data, (imageFileName scene, data)) <$>
        DataUri.strip_prefix "data:image/png;base64," url
  | None => None
  end.

(** A scene without an image, or with one as [generateImageForScene]
    returns it for a payload that is base64: not empty, without a comma,
    and taken by the decoder of the archive. *)
Definition generatedImage (scene : Scene) : Prop :=
  imageUrl scene = None ∨
  ∃ data, imageUrl scene = Some (pngUrl data) ∧
          data ≠ EmptyString ∧ noComma data = true ∧
          JSZip.decodes data = true.

(** The scenes that have an image. *)
Definition withImage (scs : list Scene) : list Scene :=
  List.filter (λ s, bool_decide (is_Some (imageUrl s))) scs.

(** The parts of a request that carry an image. *)
Definition inlineParts (request : Genai.Request) : list Genai.Part.t :=
  match Genai.contents request with
  | Genai.OfParts parts =>
      List.filter (λ part, bool_decide (is_Some (Genai.Part.inlineData part))) parts
  | Genai.OfText _ => []
  end.

(** The console lines in a trace. *)
Definition consoleErrors (tr : list Event) : list (list string) :=
  omap (λ ev, match ev with ConsoleError args => Some args | _ => None end) tr.

(* ===================================================================== *)
(** * Sample projects and services *)
(* ===================================================================== *)

Module Sample.

(** A service that cannot be reached. *)
Definition offline
  : list Event → string → Genai.Request → Error + Genai.Response.t :=
  λ _ _ _, inl (mkError "Failed to fetch").

(** A service that answers with neither text nor candidates. *)
Definition silent
  : list Event → string → Genai.Request → Error + Genai.Response.t :=
  λ _ _ _, inr (Genai.Response.mk None None).

(** A service that answers every request with one image. *)
Definition painter
  : list Event → string → Genai.Request → Error + Genai.Response.t :=
  λ _ _ _,
    inr (Genai.Response.mk None
           (Some [Genai.mkCandidate
                    (Some (Genai.mkContent
                             (Some [Genai.Part.mk
                                      (Some (Genai.mkInlineData "image/png" "iVBORw0KGgo"))
                                      None])))])).

Definition no_scenes : string → option (list Scene) := λ _, None.

Definition ann : Character :=
  mkCharacter "c-ann" "Ann" "tall, red coat"
              (Some "data:image/png;base64,QUJD").

(** A character whose reference is an SVG upload, as [readAsDataURL]
    gives it. *)
Definition bob : Character :=
  mkCharacter "c-bob" "Bob" "short, grey hat"
              (Some "data:image/svg+xml;base64,PHN2Zz48L3N2Zz4=").

Definition door : Scene :=
  mkScene 1 "A door opens." "Ann" (Some ["c-ann"]) "A door, ajar, at night"
          None None.

Definition painted : Scene :=
  mkScene 2 "Rain." "" (Some []) "Rain on a window"
          (Some "data:image/png;base64,AAAA") None.

Definition unwritten : Scene :=
  mkScene 3 "Dawn." "" (Some []) "" None None.

Definition project : AppState :=
  mkApp "noir" "A door opens. Rain. Dawn." "" [door; painted; unwritten]
        [ann; bob] false None.

(** A project file whose only scene selects an id no character has. *)
Definition ghostFile : FileContent :=
  Document
    (JObject
       (ProjectData.mk None None (Some [])
          (Some [mkScene 1 "A door opens." "" (Some ["ghost"]) "" None None]))).

(** A project file that holds a number. *)
Definition numberFile : FileContent := Document JOther.



End Sample.

(* ===================================================================== *)
(** * Theorems *)
(* ===================================================================== *)

(** ** Blank lines and [trim] *)

Lemma trimEnd_empty (s : string) :
  JS.trimEnd s = EmptyString ↔ allWhiteSpace s = true.
Proof.
  induction s as [|c s IH]; simpl; [done|].
  destruct (JS.trimEnd s) eqn:E.
  - destruct (JS.isWhiteSpace c); simpl; [tauto|].
    split; [discriminate | intros [=]].
  - split; [discriminate|].
    intros [_ H]%andb_prop. apply IH in H. discriminate.
Qed.

Lemma trimStart_allWhiteSpace (s : string) :
  allWhiteSpace (JS.trimStart s) = allWhiteSpace s.
Proof.
  induction s as [|c s IH]; simpl; [done|].
  destruct (JS.isWhiteSpace c) eqn:E; simpl; [done|]. by rewrite E.
Qed.

Lemma trim_empty (s : string) :
  JS.trim s = EmptyString ↔ allWhiteSpace s = true.
Proof.
  unfold JS.trim. by rewrite trimEnd_empty, trimStart_allWhiteSpace.
Qed.

Lemma split_nonempty (sep : ascii) (s : string) : JS.split sep s ≠ [].
Proof.
  induction s as [|c s IH]; simpl; [done|].
  destruct (Ascii.eqb c sep); [done|]. by destruct (JS.split sep s).
Qed.

Lemma split_allWhiteSpace (sep : ascii) (s : string) :
  allWhiteSpace s = true →
  Forall (λ line, allWhiteSpace line = true) (JS.split sep s).
Proof.
  induction s as [|c s IH]; simpl.
  - intros _. by repeat constructor.
  - intros [Hc Hs]%andb_prop. specialize (IH Hs).
    destruct (Ascii.eqb c sep).
    + by constructor.
    + destruct (JS.split sep s) as [|h t].
      { constructor; [simpl; by rewrite Hc | constructor]. }
      inversion IH; subst. constructor; [|done]. simpl. by rewrite Hc.
Qed.

Lemma isBlank_length (line : string) :
  (0 <? String.length (JS.trim line)) = negb (isBlank line).
Proof.
  unfold isBlank. destruct (JS.trim line) as [|c t]; [done|].
  by rewrite (bool_decide_eq_false_2 (String c t = EmptyString)).
Qed.

Lemma filter_none {A} (p : A → bool) (l : list A) :
  Forall (λ x, p x = false) l → List.filter p l = [].
Proof.
  induction 1 as [|x l Hx _ IH]; simpl; [done|]. by rewrite Hx.
Qed.

Lemma filter_split_length {A} (p : A → bool) (l : list A) :
  length (List.filter (λ x, negb (p x)) l) + length (List.filter p l) = length l.
Proof.
  induction l as [|x l IH]; simpl; [done|].
  destruct (p x); simpl; lia.
Qed.

(** C5. Batch adding appends one scene per non-blank line of the text, in
    order and after the scenes there were: for [k] kept lines and [b] blank
    ones ([k + b] lines in all) the list grows by exactly [k] scenes, the
    scene of the kept line of rank [i] (from 0) is numbered
    [existing count + i + 1], holds the trimmed line as excerpt, and has an
    empty prompt, an empty character summary, no image, no generating flag
    and an empty selection; the scenes that were there are unchanged. *)
Theorem batch_add_scenes_appends (w : World) :
  let existing := scenes (app w) in
  let lines := JS.split JS.LF (batchScenesText (app w)) in
  let kept := List.filter (λ line, negb (isBlank line)) lines in
  ∃ added,
    scenes (app (fire handleBatchAddScenes w)) = existing ++ added ∧
    length added = length kept ∧
    length kept + length (List.filter isBlank lines) = length lines ∧
    ∀ i line, kept !! i = Some line →
      added !! i =
        Some (blankScene (Z.of_nat (length existing) + Z.of_nat i + 1)
                         (JS.trim line)).
Proof.
  intros existing lines kept.
  assert (Hcount : length kept + length (List.filter isBlank lines) = length lines)
    by apply filter_split_length.
  assert (Hkept : List.filter (λ line, 0 <? String.length (JS.trim line)) lines = kept).
  { unfold kept. apply List.filter_ext. intros l. apply isBlank_length. }
  clearbody kept.
  unfold fire, handleBatchAddScenes.
  destruct (JS.truthy (JS.trim (batchScenesText (app w)))) eqn:Htext; simpl.
  - fold lines. rewrite Hkept.
    eexists. split; [reflexivity|].
    split; [by rewrite length_imap|].
    split; [done|].
    intros i line Hi. rewrite list_lookup_imap, Hi. simpl.
    unfold blankScene. do 2 f_equal. fold existing. lia.
  - exists []. rewrite app_nil_r.
    assert (Hall : allWhiteSpace (batchScenesText (app w)) = true).
    { apply trim_empty. by destruct (JS.trim (batchScenesText (app w))). }
    assert (kept = []) as ->.
    { rewrite <- Hkept. apply filter_none.
      eapply Forall_impl; [apply (split_allWhiteSpace _ _ Hall)|].
      intros l Hl. simpl. apply trim_empty in Hl. by rewrite Hl. }
    done.
Qed.

(** ** Lists, folds and frames *)

Lemma fold_left_filter {A B} (p : B → bool) (f : A → B → A) (l : list B) (a : A) :
  fold_left (λ a x, if p x then f a x else a) l a = fold_left f (List.filter p l) a.
Proof.
  revert a. induction l as [|x l IH]; intros a; simpl; [done|].
  destruct (p x); simpl; apply IH.
Qed.

Lemma omap_lookup_filter_from {A} (p : A → bool) (l pre : list A) :
  omap (λ i, (pre ++ l) !! i)
       (List.filter
          (λ i, match (pre ++ l) !! i with Some x => p x | None => false end)
          (seq (length pre) (length l)))
  = List.filter p l.
Proof.
  revert pre. induction l as [|x l IH]; intros pre; [done|].
  specialize (IH (pre ++ [x])).
  rewrite <- app_assoc, length_app in IH. simpl in IH.
  replace (length pre + 1) with (S (length pre)) in IH by lia.
  simpl seq. simpl List.filter. rewrite list_lookup_middle by done.
  destruct (p x) eqn:E; simpl; rewrite ?E; [|exact IH].
  rewrite list_lookup_middle by done. simpl. f_equal. exact IH.
Qed.

Lemma omap_lookup_filter {A} (p : A → bool) (l : list A) :
  omap (λ i, l !! i)
       (List.filter (λ i, match l !! i with Some x => p x | None => false end)
                    (seq 0 (length l)))
  = List.filter p l.
Proof. apply (omap_lookup_filter_from p l []). Qed.

Lemma filter_lookup_spec (p : Scene → bool) (scs : list Scene) (i : nat) :
  i ∈ List.filter (λ i, match scs !! i with Some s => p s | None => false end)
                  (seq 0 (length scs))
  ↔ ∃ s, scs !! i = Some s ∧ p s = true.
Proof.
  rewrite list_elem_of_In, List.filter_In, in_seq. split.
  - intros [_ H]. destruct (scs !! i) as [s|]; [eauto|done].
  - intros (s & Hs & Hw). rewrite Hs. split; [|done].
    apply lookup_lt_Some in Hs. lia.
Qed.

Lemma sameButScenes_refl (a : AppState) : sameButScenes a a.
Proof. by destruct a. Qed.

Lemma sameButScenes_trans (a b c : AppState) :
  sameButScenes a b → sameButScenes b c → sameButScenes a c.
Proof.
  unfold sameButScenes, setScenes. destruct a, b, c; simpl.
  intros [=] [=]. congruence.
Qed.

Lemma frameExcept_refl (l : list nat) (a : AppState) : frameExcept l a a.
Proof. split; [apply sameButScenes_refl | done]. Qed.

Lemma frameExcept_trans (l1 l2 : list nat) (a b c : AppState) :
  frameExcept l1 a b → frameExcept l2 b c → frameExcept (l1 ++ l2) a c.
Proof.
  intros (S1 & L1 & M1 & J1) (S2 & L2 & M2 & J2).
  split; [by eapply sameButScenes_trans|].
  split; [congruence|]. split; [congruence|].
  intros j [H1 H2]%not_elem_of_app. by rewrite J2, J1.
Qed.

Lemma assign_assign (i : nat) (f g : Scene → Scene) (l : list Scene) :
  assign i f (assign i g l) = assign i (f ∘ g) l.
Proof. apply list_alter_alter_eq. Qed.

Lemma assign_selections (i : nat) (f : Scene → Scene) (l : list Scene) :
  (∀ s, selectedCharacterIds (f s) = selectedCharacterIds s) →
  selectedCharacterIds <$> assign i f l = selectedCharacterIds <$> l.
Proof.
  intros Hf. apply list_eq. intros j. unfold assign.
  rewrite !list_lookup_fmap.
  destruct (decide (i = j)) as [->|Hne].
  - rewrite list_lookup_alter_eq. destruct (l !! j); simpl; [|done]. by rewrite Hf.
  - by rewrite list_lookup_alter_ne.
Qed.

(** A write of one scene that keeps its selection is a frame step. *)
Lemma frameExcept_assign (i : nat) (f : Scene → Scene) (a : AppState) :
  (∀ s, selectedCharacterIds (f s) = selectedCharacterIds s) →
  frameExcept [i] a (updateScenes (assign i f) a).
Proof.
  intros Hf. split; [done|]. simpl.
  split; [apply length_alter|].
  split; [by apply assign_selections|].
  intros j [Hj _]%not_elem_of_cons. apply list_lookup_alter_ne. congruence.
Qed.

(** ** Single-scene generation *)

Section Generation.

Variable KEY : option string.
Variable gc : list Event → string → Genai.Request → Error + Genai.Response.t.

Lemma generateImageForScene_trace (p s : string) (cs : list Character)
    (tr : list Event) :
  (generateImageForScene KEY gc p s cs tr).1 = tr ++ attempt KEY (imageRequest p s cs).
Proof.
  unfold generateImageForScene, attempt.
  destruct KEY as [[|c k]|]; simpl; rewrite ?app_nil_r; try done.
  unfold mbind, IO_bind, ai_generateContent.
  destruct (gc _ _ _) as [err|resp]; simpl; [done|].
  by destruct (firstImage _).
Qed.

(** The two writes of [handleGenerateImage] as one, and its trace. *)
Lemma handleGenerateImage_run (i : nat) (closure : AppState) (w : World)
    (scene : Scene) :
  scenes closure !! i = Some scene →
  handleGenerateImage KEY gc i closure w =
    mkWorld
      (updateScenes
         (assign i
            (match imageOutcome KEY gc closure scene (trace w) with
             | inr url => with_image url false
             | inl _ => with_isGeneratingImage false
             end))
         (app w))
      (trace w ++ attempt KEY (sceneImageRequest closure scene) ++
       match imageOutcome KEY gc closure scene (trace w) with
       | inr _ => []
       | inl err => imageFailureEvents scene err
       end).
Proof.
  intros Hi. unfold handleGenerateImage, imageOutcome. rewrite Hi.
  pose proof (generateImageForScene_trace (visualPrompt scene) (style closure)
                (selectedChars closure scene) (trace w)) as Htr.
  destruct (generateImageForScene _ _ _ _ _ _) as [tr [err|url]]; simpl in *;
    subst tr; unfold write, emit, updateScenes, setScenes; simpl;
    rewrite assign_assign, <- ?app_assoc, ?app_nil_r; f_equal; f_equal;
    by apply list_alter_ext.
Qed.

Lemma handleGenerateImage_no_scene (i : nat) (closure : AppState) (w : World) :
  scenes closure !! i = None → handleGenerateImage KEY gc i closure w = w.
Proof. intros Hi. unfold handleGenerateImage. by rewrite Hi. Qed.

(** The first write of [handleGenerateImage] and the writes after the
    call land on a scene of the live list: the index is in range at each
    of them when the handler runs from the render of the live state. *)
Lemma handleGenerateImage_in_range (i : nat) (w : World) (scene : Scene) :
  scenes (app w) !! i = Some scene →
  i < length (scenes (app w)) ∧
  i < length (assign i (with_isGeneratingImage true) (scenes (app w))).
Proof.
  intros Hi%lookup_lt_Some. unfold assign. by rewrite length_alter.
Qed.

(** Whatever the closure, the handler writes the scene of its index only. *)
Lemma handleGenerateImage_frame (i : nat) (closure : AppState) (w : World) :
  frameExcept [i] (app w) (app (handleGenerateImage KEY gc i closure w)).
Proof.
  destruct (scenes closure !! i) as [scene|] eqn:Hi.
  - rewrite (handleGenerateImage_run i closure w scene Hi); simpl.
    apply frameExcept_assign. intros s. by destruct (imageOutcome _ _ _ _ _).
  - rewrite handleGenerateImage_no_scene by done. apply frameExcept_refl.
Qed.

Lemma handleGeneratePromptForScene_frame (i : nat) (closure : AppState)
    (w : World) :
  frameExcept [i] (app w) (app (handleGeneratePromptForScene KEY gc i closure w)).
Proof.
  unfold handleGeneratePromptForScene.
  destruct (scenes closure !! i) as [scene|] eqn:Hi; [|apply frameExcept_refl].
  destruct (generatePromptForScene _ _ _ _ _ _) as [tr [err|p]]; simpl.
  - apply frameExcept_refl.
  - by apply frameExcept_assign.
Qed.

(** C2. For every scene of the list and every prior state of it, with
    an image or without, after single-scene image generation the scene
    is flagged as not generating, whether the call succeeded or failed;
    when the call failed its image is the one it had before the call,
    and when it succeeded its image is the one returned. *)
Theorem failed_image_generation_keeps_image (w : World) (index : nat)
    (scene : Scene) :
  scenes (app w) !! index = Some scene →
  ∃ scene',
    scenes (app (fire (handleGenerateImage KEY gc index) w)) !! index
      = Some scene' ∧
    isGeneratingImage scene' = Some false ∧
    (∀ err, imageOutcome KEY gc (app w) scene (trace w) = inl err →
            imageUrl scene' = imageUrl scene) ∧
    (∀ url, imageOutcome KEY gc (app w) scene (trace w) = inr url →
            imageUrl scene' = Some url).
Proof.
  intros Hi. unfold fire.
  rewrite (handleGenerateImage_run index (app w) w scene Hi); simpl.
  unfold assign. rewrite list_lookup_alter_eq, Hi. simpl.
  eexists. split; [reflexivity|].
  destruct (imageOutcome _ _ _ _ _) as [err|url]; simpl;
    (split; [done|]); split; intros ? [=]; by subst.
Qed.

(** C10. Single-scene image generation and single-scene prompt
    generation at index [i] change the scene list only, and in it the
    scene of index [i] only: style, story and cast (and every other cell
    but the scenes) are unchanged, the list keeps its length, the scene
    of every other index is unchanged, the scene of index [i] keeps its
    number, excerpt, summary, selection and prompt under image
    generation and changes in its prompt at most under prompt
    generation, on the success and on the failure path alike; for an
    index with no scene nothing changes at all. *)
Theorem single_scene_generation_frame (w : World) (i : nat) :
  let wi := fire (handleGenerateImage KEY gc i) w in
  let wp := fire (handleGeneratePromptForScene KEY gc i) w in
  (style (app wi) = style (app w) ∧ story (app wi) = story (app w) ∧
   casting (app wi) = casting (app w) ∧ sameButScenes (app w) (app wi)) ∧
  (style (app wp) = style (app w) ∧ story (app wp) = story (app w) ∧
   casting (app wp) = casting (app w) ∧ sameButScenes (app w) (app wp)) ∧
  (length (scenes (app wi)) = length (scenes (app w)) ∧
   length (scenes (app wp)) = length (scenes (app w))) ∧
  (∀ j, j ≠ i →
     scenes (app wi) !! j = scenes (app w) !! j ∧
     scenes (app wp) !! j = scenes (app w) !! j) ∧
  (∀ s, scenes (app w) !! i = Some s →
     (∃ s', scenes (app wi) !! i = Some s' ∧ sameButImage s s') ∧
     (∃ p, scenes (app wp) !! i = Some (with_visualPrompt p s))) ∧
  (scenes (app w) !! i = None → wi = w ∧ wp = w).
Proof.
  intros wi wp.
  destruct (handleGenerateImage_frame i (app w) w) as (Si & Li & _ & Ji).
  destruct (handleGeneratePromptForScene_frame i (app w) w) as (Sp & Lp & _ & Jp).
  fold (fire (handleGenerateImage KEY gc i) w) in Si, Li, Ji. fold wi in Si, Li, Ji.
  fold (fire (handleGeneratePromptForScene KEY gc i) w) in Sp, Lp, Jp.
  fold wp in Sp, Lp, Jp.
  split; [by rewrite Si|]. split; [by rewrite Sp|]. split; [done|].
  split.
  { intros j Hj. rewrite Ji, Jp; [done| |];
      intros [->|[]%elem_of_nil]%elem_of_cons; done. }
  split.
  - intros s Hs. split.
    + subst wi. unfold fire.
      rewrite (handleGenerateImage_run i (app w) w s Hs); simpl.
      unfold assign. rewrite list_lookup_alter_eq, Hs. simpl.
      eexists. split; [reflexivity|]. by destruct (imageOutcome _ _ _ _ _).
    + subst wp. unfold fire, handleGeneratePromptForScene. rewrite Hs.
      destruct (generatePromptForScene _ _ _ _ _ _) as [tr [err|p]]; simpl.
      * exists (visualPrompt s). rewrite Hs. by destruct s.
      * exists p. unfold assign. by rewrite list_lookup_alter_eq, Hs.
  - intros Hnone. subst wi wp.
    unfold fire, handleGenerateImage, handleGeneratePromptForScene.
    by rewrite Hnone.
Qed.

(** ** The batch of images *)

Lemma handleGenerateAllImages_targets (closure : AppState) (w : World) :
  handleGenerateAllImages KEY gc closure w =
    fold_left (imageTurn KEY gc closure) (imageTargets (scenes closure)) w.
Proof.
  unfold handleGenerateAllImages, imageTargets.
  rewrite <- fold_left_filter. revert w.
  induction (seq 0 (length (scenes closure))) as [|i l IH]; intros w; [done|].
  simpl. rewrite <- IH. f_equal.
  destruct (scenes closure !! i) as [s|]; [|done]. by destruct (wantsImage s).
Qed.

Lemma imageTurns_frame (closure : AppState) (l : list nat) (w : World) :
  frameExcept l (app w) (app (fold_left (imageTurn KEY gc closure) l w)).
Proof.
  revert w. induction l as [|i l IH]; intros w; simpl.
  - apply frameExcept_refl.
  - apply (frameExcept_trans [i] l _ (app (imageTurn KEY gc closure w i)));
      [|apply IH].
    apply handleGenerateImage_frame.
Qed.

Lemma imageTurns_done (closure : AppState) (l : list nat) (w : World) :
  NoDup l →
  (∀ j, j ∈ l → scenes (app w) !! j = scenes closure !! j) →
  ∀ j s, j ∈ l → scenes closure !! j = Some s →
    ∃ s', scenes (app (fold_left (imageTurn KEY gc closure) l w)) !! j = Some s' ∧
          isGeneratingImage s' = Some false ∧ sameButImage s s'.
Proof.
  revert w. induction l as [|i l IH]; intros w Hnd Hlive j s Hin Hs.
  { by apply elem_of_nil in Hin. }
  apply NoDup_cons in Hnd as [Hi Hnd]. simpl.
  destruct (handleGenerateImage_frame i closure w) as (_ & _ & _ & Hj1).
  destruct (decide (j = i)) as [->|Hne].
  - destruct (imageTurns_frame closure l (imageTurn KEY gc closure w i))
      as (_ & _ & _ & Hj).
    rewrite Hj by done. unfold imageTurn. simpl.
    rewrite (handleGenerateImage_run i closure w s Hs). simpl.
    unfold assign.
    rewrite list_lookup_alter_eq, Hlive, Hs by apply list_elem_of_here.
    simpl. eexists. split; [reflexivity|].
    by destruct (imageOutcome _ _ _ _ _).
  - apply elem_of_cons in Hin as [?|Hin]; [done|].
    apply IH; [done| |done|done].
    intros k Hk. unfold imageTurn. simpl.
    assert (k ∉ [i]).
    { intros [->|[]%elem_of_nil]%elem_of_cons. done. }
    rewrite Hj1 by done. apply Hlive. by apply list_elem_of_further.
Qed.

Lemma requests_app (tr1 tr2 : list Event) :
  requests (tr1 ++ tr2) = requests tr1 ++ requests tr2.
Proof. apply omap_app. Qed.

Lemma pauses_app (tr1 tr2 : list Event) :
  pauses (tr1 ++ tr2) = pauses tr1 ++ pauses tr2.
Proof. apply omap_app. Qed.

Lemma imageTurn_trace (closure : AppState) (w : World) (i : nat) (s : Scene) :
  scenes closure !! i = Some s →
  pauses (trace (imageTurn KEY gc closure w i)) = pauses (trace w) ++ [1500] ∧
  requests (trace (imageTurn KEY gc closure w i)) =
    requests (trace w) ++ requests (attempt KEY (sceneImageRequest closure s)).
Proof.
  intros Hs. unfold imageTurn. simpl.
  rewrite (handleGenerateImage_run i closure w s Hs). simpl.
  rewrite !pauses_app, !requests_app.
  assert (pauses (attempt KEY (sceneImageRequest closure s)) = []) as ->.
  { unfold attempt. by destruct KEY as [[|]|]. }
  destruct (imageOutcome _ _ _ _ _); simpl; by rewrite ?app_nil_r.
Qed.

Lemma imageTurns_trace (closure : AppState) (l : list nat) (w : World) :
  (∀ i, i ∈ l → is_Some (scenes closure !! i)) →
  let w' := fold_left (imageTurn KEY gc closure) l w in
  pauses (trace w') = pauses (trace w) ++ map (λ _, 1500) l ∧
  requests (trace w') =
    requests (trace w) ++
    flat_map (λ s, requests (attempt KEY (sceneImageRequest closure s)))
             (omap (λ i, scenes closure !! i) l).
Proof.
  revert w. induction l as [|i l IH]; intros w Hl; simpl.
  - by rewrite !app_nil_r.
  - destruct (Hl i) as [s Hs]; [apply list_elem_of_here|].
    destruct (IH (imageTurn KEY gc closure w i)) as [Hp Hr].
    { intros k Hk. apply Hl. by apply list_elem_of_further. }
    destruct (imageTurn_trace closure w i s Hs) as [Hp1 Hr1].
    rewrite Hp, Hr, Hp1, Hr1, Hs. simpl.
    by rewrite <- !app_assoc.
Qed.

Lemma imageTargets_NoDup (scs : list Scene) : NoDup (imageTargets scs).
Proof.
  unfold imageTargets. apply NoDup_ListNoDup, List.NoDup_filter, seq_NoDup.
Qed.

(** The test of the loop is the eligibility of the description. *)
Lemma wantsImage_eligible (s : Scene) :
  wantsImage s = bool_decide (eligible s).
Proof.
  unfold wantsImage.
  destruct (decide (eligible s)) as [(Hi & Hg & Hp)|Hno].
  - rewrite bool_decide_eq_true_2 by done.
    destruct Hi as [-> | ->], Hg as [-> | ->]; by destruct (visualPrompt s).
  - rewrite bool_decide_eq_false_2 by done.
    apply not_true_is_false. intros Hw. apply Hno.
    unfold eligible, noImageYet, notGenerating.
    destruct (imageUrl s) as [[|]|], (isGeneratingImage s) as [[|]|],
      (visualPrompt s); simpl in Hw; try done; split_and!; auto.
Qed.

Lemma imageTargets_eligible (scs : list Scene) :
  imageTargets scs = eligibleIndices scs.
Proof.
  unfold imageTargets, eligibleIndices. apply List.filter_ext. intros i.
  destruct (scs !! i) as [s|]; [apply wantsImage_eligible | done].
Qed.

(** C6. The batch of images goes through the scenes in the order of the
    list and runs single-scene image generation, each run followed by
    one pause, exactly for the scenes that have no image yet (none, or
    the empty string), are not generating (no flag, or false) and have a
    non-empty prompt: the pauses are one per such scene, the requests
    sent are those of these scenes in order (none without a credential),
    a scene that has an image, is generating or has an empty prompt is
    the same afterwards, and every scene of the three conditions ends
    flagged as not generating, changed in its image at most. *)
Theorem generate_all_images_targets (w : World) :
  let closure := app w in
  let scs := scenes closure in
  let w' := fire (handleGenerateAllImages KEY gc) w in
  w' = fold_left (imageTurn KEY gc closure) (eligibleIndices scs) w ∧
  omap (λ i, scs !! i) (eligibleIndices scs)
    = List.filter (λ s, bool_decide (eligible s)) scs ∧
  pauses (trace w') = pauses (trace w) ++ map (λ _, 1500) (eligibleIndices scs) ∧
  requests (trace w') =
    requests (trace w) ++
    flat_map (λ s, requests (attempt KEY (sceneImageRequest closure s)))
             (List.filter (λ s, bool_decide (eligible s)) scs) ∧
  length (scenes (app w')) = length scs ∧
  (∀ j s, scs !! j = Some s →
          (∃ url, imageUrl s = Some url ∧ url ≠ EmptyString) ∨
          isGeneratingImage s = Some true ∨
          visualPrompt s = EmptyString →
          scenes (app w') !! j = Some s) ∧
  (∀ j s, scs !! j = Some s →
          imageUrl s = None ∨ imageUrl s = Some EmptyString →
          isGeneratingImage s = None ∨ isGeneratingImage s = Some false →
          visualPrompt s ≠ EmptyString →
          ∃ s', scenes (app w') !! j = Some s' ∧
                isGeneratingImage s' = Some false ∧ sameButImage s s').
Proof.
  intros closure scs w'. subst w'. unfold fire. fold closure.
  rewrite handleGenerateAllImages_targets. fold scs.
  rewrite <- (imageTargets_eligible scs).
  rewrite <- (List.filter_ext _ _ wantsImage_eligible scs).
  split; [done|].
  pose proof (omap_lookup_filter wantsImage scs) as Hscenes.
  split; [exact Hscenes|].
  destruct (imageTurns_trace closure (imageTargets scs) w) as [Hp Hr].
  { intros i (s & Hs & _)%filter_lookup_spec. by exists s. }
  split; [exact Hp|]. split; [fold scs in Hr; by rewrite <- Hscenes|].
  destruct (imageTurns_frame closure (imageTargets scs) w)
    as (_ & Hlen & _ & Hother).
  split; [exact Hlen|]. split.
  - intros j s Hs Hno. rewrite Hother; [done|].
    intros (s1 & Hs1 & Hw1)%filter_lookup_spec.
    assert (s1 = s) as -> by congruence.
    rewrite wantsImage_eligible in Hw1.
    apply bool_decide_eq_true_1 in Hw1 as (Hi & Hg & Hp').
    destruct Hno as [(url & Hu & Hne)|[Hfl|Hpr]].
    + destruct Hi as [Hi|Hi]; congruence.
    + destruct Hg as [Hg|Hg]; congruence.
    + done.
  - intros j s Hs Hi Hg Hp'.
    apply (imageTurns_done closure (imageTargets scs) w); try done.
    + apply imageTargets_NoDup.
    + apply filter_lookup_spec. exists s. split; [done|].
      rewrite wantsImage_eligible. by apply bool_decide_eq_true_2.
Qed.

End Generation.

(** ** Referential integrity of the selections *)

Lemma selectionOk_iff (a : AppState) :
  selectionOk a ↔
  Forall (λ ids, default [] ids ⊆ castIds a) (selectedCharacterIds <$> scenes a).
Proof. unfold selectionOk. by rewrite Forall_fmap. Qed.

Lemma selectionOk_frame (l : list nat) (a a' : AppState) :
  frameExcept l a a' → selectionOk a → selectionOk a'.
Proof.
  intros (Hs & _ & Hsel & _). rewrite !selectionOk_iff, Hsel.
  unfold castIds. by rewrite Hs.
Qed.

Lemma selectionOk_cells (a a' : AppState) :
  scenes a' = scenes a → castIds a' = castIds a → selectionOk a → selectionOk a'.
Proof. unfold selectionOk. by intros -> ->. Qed.

Lemma without_spec (id' x : string) (ids : list string) :
  x ∈ without id' ids ↔ x ∈ ids ∧ x ≠ id'.
Proof.
  unfold without. rewrite !list_elem_of_In, List.filter_In, negb_true_iff.
  by rewrite String.eqb_neq.
Qed.

Lemma castIds_remove (id' x : string) (cs : list Character) :
  x ∈ map id (List.filter (λ c, negb (String.eqb (id c) id')) cs)
  ↔ x ∈ map id cs ∧ x ≠ id'.
Proof.
  rewrite !list_elem_of_In, !in_map_iff. split.
  - intros (c & <- & [Hc Hne]%List.filter_In).
    apply negb_true_iff, String.eqb_neq in Hne. eauto.
  - intros [(c & <- & Hc) Hne]. exists c. split; [done|].
    apply List.filter_In. split; [done|]. by apply negb_true_iff, String.eqb_neq.
Qed.

Lemma castIds_update (id' : string) (field : CharacterKey) (value : string)
    (cs : list Character) :
  field ≠ K_id →
  map id (map (λ c, if String.eqb (id c) id' then Character_with c field value
                    else c) cs)
  = map id cs.
Proof.
  intros Hf. rewrite map_map. apply map_ext. intros c.
  destruct (String.eqb (id c) id'); [|done]. by destruct field.
Qed.

(** Removing a character keeps the integrity and leaves no trace of its
    id, in the cast and in the selections. *)
Lemma handleRemoveCharacter_removes (id' : string) (w : World) :
  selectionOk (app w) →
  let w' := fire (handleRemoveCharacter id') w in
  selectionOk (app w') ∧ (id' ∉ castIds (app w')) ∧
  Forall (λ s, id' ∉ selection s) (scenes (app w')).
Proof.
  intros Hok. unfold fire, handleRemoveCharacter, selectionOk, castIds. simpl.
  split; [|split].
  - rewrite Forall_fmap. eapply Forall_impl; [exact Hok|].
    intros s Hs x. unfold selection. simpl.
    destruct (selectedCharacterIds s) as [ids|] eqn:E; simpl;
      [|intros Hx; by apply elem_of_nil in Hx].
    intros [Hx Hne]%without_spec. apply castIds_remove. split; [|done].
    apply Hs. unfold selection. by rewrite E.
  - intros [_ H]%castIds_remove. done.
  - rewrite Forall_fmap. apply Forall_forall. intros s _. unfold selection. simpl.
    destruct (selectedCharacterIds s) as [ids|]; simpl;
      [|intros Hx; by apply elem_of_nil in Hx].
    intros [_ H]%without_spec. done.
Qed.

Lemma handleImport_app (file : option FileContent) (c : AppState) (w : World) :
  app (handleImport file c w) = app (handleImport file (app w) (mkWorld (app w) [])).
Proof.
  unfold handleImport. destruct file as [[err|[| |pd]]|]; done.
Qed.

(** What [JSON.stringify] writes of a project is read back as that
    project: a key is written exactly when its value is defined, and each
    key is read with the value written under it. *)
Lemma asCharacter_of_character (c : Character) :
  Json.asCharacter (Json.of_character c) = Some c.
Proof. destruct c as [i n p [r|]]; reflexivity. Qed.

Lemma asScene_of_scene (s : Scene) :
  Json.asScene (Json.of_scene s) = Some s.
Proof.
  destruct s as [n t c [ids|] p [url|] [b|]];
    unfold Json.asScene, Json.of_scene, Json.required, Json.optional; cbn;
    rewrite ?mapM_fmap_Some; done.
Qed.

Lemma typed_of_projectData (projectData : ProjectData.t) :
  Json.typed (Json.of_projectData projectData) = Some (JObject projectData).
Proof.
  pose proof (λ cs, mapM_fmap_Some Json.asCharacter Json.of_character cs
                      asCharacter_of_character) as Hcs.
  pose proof (λ scs, mapM_fmap_Some Json.asScene Json.of_scene scs
                       asScene_of_scene) as Hscs.
  destruct projectData as [[st|] [sy|] [cs|] [scs|]];
    unfold Json.typed, Json.of_projectData, Json.optional; cbn;
    rewrite ?Hcs, ?Hscs; done.
Qed.

Lemma JSON_stringify_document (projectData : ProjectData.t) :
  JSON_stringify projectData = Document (JObject projectData).
Proof. unfold JSON_stringify. by rewrite typed_of_projectData. Qed.

(** Importing what export wrote for a project whose selections are within
    its cast is a checked import, whatever the current state. *)
Lemma exported_import_is_checked (a current : AppState) :
  selectionOk a →
  importChecked current (Import (Some (JSON_stringify (projectDataOf a)))).
Proof. intros Hok. rewrite JSON_stringify_document. exact Hok. Qed.

Lemma sample_project_ok : selectionOk Sample.project.
Proof.
  unfold selectionOk. simpl. repeat (apply Forall_cons; split); [| | |constructor].
  - intros x [->|Hx]%elem_of_cons; [apply list_elem_of_here|].
    by apply elem_of_nil in Hx.
  - intros x Hx. by apply elem_of_nil in Hx.
  - intros x Hx. by apply elem_of_nil in Hx.
Qed.

Section Integrity.

Variable KEY : option string.
Variable gc : list Event → string → Genai.Request → Error + Genai.Response.t.
Variable parse : string → option (list Scene).

Lemma handleGenerateAllPrompts_frame (closure : AppState) (w : World) :
  ∃ l, frameExcept l (app w) (app (handleGenerateAllPrompts KEY gc closure w)).
Proof.
  unfold handleGenerateAllPrompts. revert w.
  induction (seq 0 (length (scenes closure))) as [|i l IH]; intros w; simpl.
  - exists []. apply frameExcept_refl.
  - match goal with |- context [fold_left _ l ?w1] => destruct (IH w1) as [l' Hl'] end.
    exists ([i] ++ l'). eapply frameExcept_trans; [|exact Hl'].
    destruct (scenes closure !! i) as [s|]; [|apply frameExcept_refl].
    destruct (negb _); [|apply frameExcept_refl].
    apply handleGeneratePromptForScene_frame.
Qed.

Lemma handleGenerateStoryboard_ok (w : World) :
  selectionOk (app w) →
  selectionOk (app (fire (handleGenerateStoryboard KEY gc parse) w)).
Proof.
  intros Hok. unfold fire, handleGenerateStoryboard.
  destruct (negb _ || negb _); [exact Hok|].
  destruct (generateStoryboard _ _ _ _ _ _) as [tr [err|generated]]; simpl.
  - constructor.
  - unfold selectionOk. simpl. rewrite Forall_fmap. apply Forall_forall.
    intros s _ x. by intros ?%elem_of_nil.
Qed.

Lemma handleBatchAddScenes_ok (w : World) :
  selectionOk (app w) → selectionOk (app (fire handleBatchAddScenes w)).
Proof.
  intros Hok. unfold fire, handleBatchAddScenes.
  destruct (negb _); [exact Hok|]. unfold selectionOk. simpl.
  apply Forall_app. split; [exact Hok|].
  apply Forall_lookup. intros i s. rewrite list_lookup_imap.
  destruct (_ !! i); simpl; [|done]. intros [= <-] x. by intros ?%elem_of_nil.
Qed.

Lemma toggleCharacterInScene_ok (i : nat) (cid : string) (w : World) :
  cid ∈ castIds (app w) → selectionOk (app w) →
  selectionOk (app (fire (toggleCharacterInScene i cid) w)).
Proof.
  intros Hcid Hok. unfold fire, toggleCharacterInScene, selectionOk. simpl.
  apply Forall_alter; [exact Hok|]. intros s _ Hs x.
  fold (selection s). destruct (JS.includes (selection s) cid); unfold selection; simpl.
  - intros [Hx _]%without_spec. by apply Hs.
  - intros [Hx|Hx]%elem_of_app; [by apply Hs|].
    apply elem_of_cons in Hx as [->|[]%elem_of_nil]. done.
Qed.

(** Every action the markup offers keeps the integrity, an import when
    it is a checked one. *)
Lemma step_selectionOk (act : Action) (w : World) :
  offered (app w) act → importChecked (app w) act →
  selectionOk (app w) → selectionOk (app (step KEY gc parse act w)).
Proof.
  intros Hoff Hchk Hok. unfold step.
  destruct act; simpl in *; try exact Hok.
  - (* Import *) unfold fire. by rewrite handleImport_app.
  - (* Export *) unfold fire, handleExport. by destruct (JSZip.generates _).
  - (* AddCharacter *)
    unfold fire, handleAddCharacter, selectionOk, castIds in *. simpl.
    eapply Forall_impl; [exact Hok|]. intros s Hs x Hx.
    rewrite map_app. apply elem_of_app. left. by apply Hs.
  - (* UpdateCharacter *)
    apply (selectionOk_cells (app w)); [done| |exact Hok].
    apply castIds_update, Hoff.
  - (* RemoveCharacter *) by apply handleRemoveCharacter_removes.
  - (* CharacterImageUpload *)
    unfold fire, handleCharacterImageUpload. destruct file; [|exact Hok].
    apply (selectionOk_cells (app w)); [done| |exact Hok].
    by apply castIds_update.
  - by apply handleGenerateStoryboard_ok.
  - by apply handleBatchAddScenes_ok.
  - eapply selectionOk_frame; [apply handleGenerateImage_frame | exact Hok].
  - eapply selectionOk_frame; [apply handleGeneratePromptForScene_frame | exact Hok].
  - unfold fire. rewrite handleGenerateAllImages_targets.
    eapply selectionOk_frame; [apply imageTurns_frame | exact Hok].
  - unfold fire.
    destruct (handleGenerateAllPrompts_frame (app w) w) as [l Hl].
    eapply selectionOk_frame; [exact Hl | exact Hok].
  - apply toggleCharacterInScene_ok; [apply Hoff | exact Hok].
  - (* DeleteScene *)
    unfold fire, onDeleteScene, selectionOk. simpl. by apply Forall_delete.
  - (* VisualPromptChange *)
    eapply selectionOk_frame; [|exact Hok].
    unfold fire, onVisualPromptChange. simpl.
    apply (frameExcept_assign index (with_visualPrompt value) (app w)). done.
Qed.

(** C1, amended. In every state reached from the initial one by the
    operations of the project model and the generation handlers, as the
    markup calls them, and by imports after which the selections are
    within the cast, every scene selects ids of the cast only; and
    removing a character by id from such a state keeps that, and leaves
    the id neither in the cast nor in the selection of any scene. *)
Theorem selection_within_cast (w : World) :
  reachable KEY gc parse (λ a act, offered a act ∧ importChecked a act) w →
  selectionOk (app w) ∧
  ∀ id', let w' := step KEY gc parse (RemoveCharacter id') w in
         selectionOk (app w') ∧ (id' ∉ castIds (app w')) ∧
         Forall (λ s, id' ∉ selection s) (scenes (app w')).
Proof.
  intros Hreach.
  assert (Hok : selectionOk (app w)).
  { induction Hreach as [|w act _ IH [Hoff Hchk]]; [constructor|].
    by apply step_selectionOk. }
  split; [exact Hok|]. intros id'. by apply handleRemoveCharacter_removes.
Qed.

End Integrity.

(** ** Export and import *)




Lemma alerts_app (tr1 tr2 : list Event) :
  alerts (tr1 ++ tr2) = alerts tr1 ++ alerts tr2.
Proof. apply omap_app. Qed.

(** C4, amended. Import reports its error, and leaves the state as it
    was, when the file is not JSON or is the document null; a document
    that is a number, a string, a boolean or an array is taken without
    an error and changes nothing; for an object, the keys it has replace
    style, story, cast and scenes, and the keys it lacks leave them
    unchanged, without an error. *)
Theorem import_outcomes (content : FileContent) (w : World) :
  let w' := fire (handleImport (Some content)) w in
  ((∃ err, JSON_parse content = inl err) ∨ JSON_parse content = inr JNull →
     app w' = app w ∧ alerts (trace w') = alerts (trace w) ++ [IMPORT_ALERT]) ∧
  (JSON_parse content = inr JOther → w' = w) ∧
  (∀ projectData, JSON_parse content = inr (JObject projectData) →
     trace w' = trace w ∧
     style (app w') = default (style (app w)) (ProjectData.style projectData) ∧
     story (app w') = default (story (app w)) (ProjectData.story projectData) ∧
     casting (app w') = default (casting (app w)) (ProjectData.casting projectData) ∧
     scenes (app w') = default (scenes (app w)) (ProjectData.scenes projectData) ∧
     batchScenesText (app w') = batchScenesText (app w) ∧
     isGeneratingStoryboard (app w') = isGeneratingStoryboard (app w) ∧
     error (app w') = error (app w)).
Proof.
  intros w'. subst w'. unfold fire, handleImport.
  split; [|split].
  - intros [[err ->]| ->]; simpl; by rewrite alerts_app.
  - by intros ->.
  - intros pd ->. simpl. destruct pd as [[?|] [?|] [?|] [?|]]; done.
Qed.

(** C4 as stated fails: a file that holds a number is not the structured
    descriptor, and importing it reports no error. *)
Lemma number_file_imports_silently :
  ¬ isDescriptor Sample.numberFile ∧
  fire (handleImport (Some Sample.numberFile)) (mkWorld Sample.project [])
    = mkWorld Sample.project [].
Proof. split; [by intros [pd [=]] | reflexivity]. Qed.

(** ** The generation client *)

Section Client.

Variable KEY : option string.
Variable gc : list Event → string → Genai.Request → Error + Genai.Response.t.
Variable parse : string → option (list Scene).

(** C8. Without a credential each of the three operations (segment,
    generate a prompt, generate an image) throws the error of the
    missing key, which is the configuration error and none of the
    generation errors, and leaves the trace as it was: no request is
    sent. *)
Theorem missing_credential_fails_first (style story prompt textExcerpt : string)
    (cs : list Character) (tr : list Event) :
  noCredential KEY →
  generateStoryboard KEY gc parse style story tr = (tr, inl MISSING_KEY) ∧
  generateImageForScene KEY gc prompt style cs tr = (tr, inl MISSING_KEY) ∧
  generatePromptForScene KEY gc style textExcerpt cs tr = (tr, inl MISSING_KEY) ∧
  ConfigurationError MISSING_KEY ∧ ¬ GenerationError MISSING_KEY.
Proof.
  unfold noCredential, generateStoryboard, generateImageForScene,
    generatePromptForScene.
  destruct KEY as [[|c k]|]; simpl; try done; intros _;
    (repeat split; try done);
    unfold GenerationError; rewrite !elem_of_cons, elem_of_nil;
    intros [[=]|[[=]|[[=]|[]]]].
Qed.

(** C7, amended. With a credential, when the service answers the prompt
    request with no text or an empty text, prompt generation returns the
    empty string after that one request; it does not fail. *)
Theorem prompt_without_text_is_empty (key style textExcerpt : string)
    (cs : list Character) (tr : list Event) (response : Genai.Response.t) :
  KEY = Some key → JS.truthy key = true →
  gc tr key (scenePromptRequest style textExcerpt cs) = inr response →
  noText response →
  generatePromptForScene KEY gc style textExcerpt cs tr =
    (tr ++ [NetCall key (scenePromptRequest style textExcerpt cs)],
     inr EmptyString).
Proof.
  intros -> Hkey Hgc Hno. unfold generatePromptForScene.
  destruct key as [|c k]; [done|].
  unfold mbind, IO_bind, ai_generateContent. rewrite Hgc.
  unfold noText in Hno.
  by destruct (Genai.Response.text response) as [[|]|].
Qed.

End Client.

(** C7 as stated fails: on an answer without text prompt generation
    returns the empty string. *)
Lemma prompt_without_text_returns :
  noText (Genai.Response.mk None None) ∧
  generatePromptForScene (Some "key") Sample.silent "noir" "A door opens." [] [] =
    ([NetCall "key" (scenePromptRequest "noir" "A door opens." [])],
     inr EmptyString).
Proof. split; reflexivity. Qed.

(** ** The data URI pattern *)

Lemma strip_prefix_spec (p s r : string) :
  DataUri.strip_prefix p s = Some r ↔ s = p +:+ r.
Proof.
  revert s. induction p as [|a p IH]; intros s; simpl.
  - split; [by intros [= ->] | by intros ->].
  - destruct s as [|b s]; [done|].
    destruct (Ascii.eqb_spec a b) as [->|Hne].
    + rewrite IH. change (String b p +:+ r) with (String b (p +:+ r)).
      split; [by intros -> | by intros [= ->]].
    + split; [done|]. change (String a p +:+ r) with (String a (p +:+ r)).
      intros [= -> _]. done.
Qed.

Lemma span_word_spec (s : string) :
  s = (DataUri.span_word s).1 +:+ (DataUri.span_word s).2 ∧
  allWord (DataUri.span_word s).1 = true ∧
  word_stop (DataUri.span_word s).2.
Proof.
  induction s as [|c s (IH1 & IH2 & IH3)]; simpl; [done|].
  destruct (DataUri.word_char c) eqn:E; [|done].
  destruct (DataUri.span_word s) as [w r]; simpl in *.
  rewrite E, IH2. split; [|done].
  change (String c w +:+ r) with (String c (w +:+ r)). by f_equal.
Qed.

Lemma span_word_app (w r : string) :
  allWord w = true → word_stop r → DataUri.span_word (w +:+ r) = (w, r).
Proof.
  intros Hw Hr. induction w as [|c w IH]; simpl in *.
  - change (EmptyString +:+ r) with r. destruct r as [|c r]; [done|].
    simpl in *. by rewrite Hr.
  - apply andb_prop in Hw as [Hc Hw].
    change (String c w +:+ r) with (String c (w +:+ r)). simpl.
    by rewrite Hc, (IH Hw).
Qed.

(** The strings the pattern matches, and its two groups. *)
Lemma DataUri_exec_spec (s mimeType data : string) :
  DataUri.exec s = Some (mimeType, data) ↔
  ∃ w, s = "data:image/" +:+ w +:+ ";base64," +:+ data ∧
       w ≠ EmptyString ∧ allWord w = true ∧
       data ≠ EmptyString ∧ DataUri.all_dot data = true ∧
       mimeType = "image/" +:+ w.
Proof.
  unfold DataUri.exec. split.
  - destruct (DataUri.strip_prefix "data:image/" s) as [r1|] eqn:E1; [|done].
    apply strip_prefix_spec in E1.
    destruct (span_word_spec r1) as (H1 & H2 & _).
    destruct (DataUri.span_word r1) as [w r2]; simpl in H1, H2.
    destruct w as [|c w]; [intros [=]|].
    destruct (DataUri.strip_prefix ";base64," r2) as [payload|] eqn:E2; [|done].
    apply strip_prefix_spec in E2.
    destruct (JS.truthy payload) eqn:E3; [|done].
    destruct (DataUri.all_dot payload) eqn:E4; [|done].
    simpl. intros [= <- <-]. exists (String c w).
    split; [by rewrite E1, H1, E2|].
    split; [done|]. split; [done|]. split; [by destruct payload|]. done.
  - intros (w & -> & Hw & Hall & Hd & Hdot & ->).
    assert (DataUri.strip_prefix "data:image/"
              ("data:image/" +:+ w +:+ ";base64," +:+ data)
            = Some (w +:+ ";base64," +:+ data)) as -> by by apply strip_prefix_spec.
    rewrite (span_word_app w (";base64," +:+ data)) by done.
    destruct w as [|c w]; [done|].
    assert (DataUri.strip_prefix ";base64," (";base64," +:+ data) = Some data) as ->
      by by apply strip_prefix_spec.
    rewrite Hdot. by destruct data.
Qed.

(** ** The parts of an image request *)

Lemma push_reference_conditioning (parts : list Genai.Part.t) (c : Character) :
  push_reference parts c = parts ++ option_list (conditioning c).
Proof.
  unfold push_reference, conditioning.
  destruct (referenceImage c) as [[|a url]|]; simpl; rewrite ?app_nil_r; try done.
  destruct (DataUri.exec (String a url)) as [[m d]|]; simpl; by rewrite ?app_nil_r.
Qed.

Lemma fold_push_reference (cs : list Character) (parts : list Genai.Part.t) :
  fold_left push_reference cs parts = parts ++ omap conditioning cs.
Proof.
  revert parts. induction cs as [|c cs IH]; intros parts; simpl.
  - by rewrite app_nil_r.
  - rewrite IH, push_reference_conditioning, <- app_assoc. f_equal.
    by destruct (conditioning c).
Qed.

Lemma append_assoc (a b c : string) : (a +:+ b) +:+ c = a +:+ b +:+ c.
Proof.
  induction a as [|x a IH]; [done|].
  change (String x ((a +:+ b) +:+ c) = String x (a +:+ b +:+ c)). by rewrite IH.
Qed.

Lemma append_empty_r (a : string) : a +:+ EmptyString = a.
Proof.
  induction a as [|x a IH]; [done|].
  change (String x (a +:+ EmptyString) = String x a). by rewrite IH.
Qed.

(** C9, amended. The parts of an image request are one image part per
    character whose reference image matches the data URI pattern
    ([data:image/], a non-empty run of word characters, [;base64,], a
    non-empty payload on one line), carrying the media type and the
    payload, in cast order, followed by one text part; the text is the
    style, the scene description and, when there are characters, one
    name and prompt line per character and the instruction on character
    consistency. *)
Theorem image_request_parts (prompt style : string) (cs : list Character) :
  imageParts prompt style cs =
    omap conditioning cs ++
    [Genai.Part.mk None (Some (fullPrompt prompt style cs))] ∧
  (∀ c part, conditioning c = Some part ↔
     ∃ w data,
       referenceImage c = Some ("data:image/" +:+ w +:+ ";base64," +:+ data) ∧
       w ≠ EmptyString ∧ allWord w = true ∧
       data ≠ EmptyString ∧ DataUri.all_dot data = true ∧
       part = Genai.Part.mk
                (Some (Genai.mkInlineData ("image/" +:+ w) data)) None) ∧
  fullPrompt prompt style cs =
    "Style: " +:+ style +:+ ". " +:+ JS.nl +:+ "Scene description: " +:+ prompt +:+
    match cs with
    | [] => EmptyString
    | _ => JS.nl +:+ "Characters in scene:" +:+ JS.nl +:+
           JS.join JS.nl (map character_line cs) +:+ JS.nl +:+
           "(Please maintain character consistency with the provided reference images if any)."
    end.
Proof.
  split; [|split].
  - unfold imageParts. by rewrite fold_push_reference.
  - intros c part. unfold conditioning.
    destruct (referenceImage c) as [url|]; [|split; [done|by intros (?&?&?&_)]].
    split.
    + destruct (DataUri.exec url) as [[m d]|] eqn:E; [|done].
      apply DataUri_exec_spec in E as (w & -> & ? & ? & ? & ? & ->).
      intros [= <-]. by exists w, d.
    + intros (w & d & [= ->] & Hw & Hall & Hd & Hdot & ->).
      assert (DataUri.exec ("data:image/" +:+ w +:+ ";base64," +:+ d)
              = Some ("image/" +:+ w, d)) as ->; [|done].
      apply DataUri_exec_spec. by exists w.
  - unfold fullPrompt. destruct cs as [|c cs].
    + by rewrite append_empty_r.
    + by rewrite !append_assoc.
Qed.

(** C9 as stated fails: a character whose reference image is an SVG data
    URI has a reference image, and the request carries no image part. *)
Lemma svg_reference_is_not_sent :
  referenceImage Sample.bob = Some "data:image/svg+xml;base64,PHN2Zz48L3N2Zz4=" ∧
  imageParts "A door, ajar, at night" "noir" [Sample.bob] =
    [Genai.Part.mk None
       (Some (fullPrompt "A door, ajar, at night" "noir" [Sample.bob]))].
Proof. split; reflexivity. Qed.

(** ** Instances *)

(** C1 as stated fails: importing a project file whose scene selects an
    id that no character of its cast has is offered in the initial state,
    and the state it leads to breaks the integrity. *)
Lemma import_breaks_selection :
  reachable None Sample.offline Sample.no_scenes offered
    (step None Sample.offline Sample.no_scenes (Import (Some Sample.ghostFile))
          (mkWorld initialState [])) ∧
  ¬ selectionOk
      (app (step None Sample.offline Sample.no_scenes
                 (Import (Some Sample.ghostFile)) (mkWorld initialState []))).
Proof.
  split.
  - apply reachable_step; [apply reachable_init | exact I].
  - intros H. apply Forall_cons in H as [H _].
    specialize (H "ghost" (list_elem_of_here _ _)). by apply elem_of_nil in H.
Qed.

(** A session that adds a character, adds a scene in batch, casts the
    character in it and imports an exported project; then the character
    is removed. *)
Lemma selection_within_cast_witness :
  let run := step None Sample.offline Sample.no_scenes in
  let w :=
    run (Import (Some (JSON_stringify (projectDataOf Sample.project))))
      (run (ToggleCharacterInScene 0 "c-ann")
         (run BatchAddScenes
            (run (BatchScenesTextChange "A door opens.")
               (run (AddCharacter "c-ann") (mkWorld initialState []))))) in
  selection <$> scenes (app w) = [["c-ann"]; []; []] ∧
  selectionOk (app w) ∧
  selection <$> scenes (app (run (RemoveCharacter "c-ann") w)) = [[]; []; []].
Proof.
  split; [reflexivity|]. split; [|reflexivity].
  apply (selection_within_cast None Sample.offline Sample.no_scenes).
  repeat (apply reachable_step; [|split]); try apply reachable_init; try exact I.
  - split; [vm_compute; lia | apply list_elem_of_here].
  - apply exported_import_is_checked, sample_project_ok.
Defined.

(** The service cannot be reached while the image of a scene that has one
    is generated again: the scene keeps its image. *)
Lemma failed_image_generation_keeps_image_witness :
  imageOutcome (Some "key") Sample.offline Sample.project Sample.painted []
    = inl (mkError "Failed to fetch") ∧
  ∃ scene',
    scenes (app (fire (handleGenerateImage (Some "key") Sample.offline 1)
                      (mkWorld Sample.project []))) !! 1 = Some scene' ∧
    isGeneratingImage scene' = Some false ∧
    imageUrl scene' = Some "data:image/png;base64,AAAA".
Proof.
  split; [reflexivity|].
  destruct (failed_image_generation_keeps_image (Some "key") Sample.offline
              (mkWorld Sample.project []) 1 Sample.painted eq_refl)
    as (scene' & Hat & Hflag & Hfail & _).
  exists scene'. split; [exact Hat|]. split; [exact Hflag|].
  exact (Hfail (mkError "Failed to fetch") eq_refl).
Defined.

(** No key, or an empty one: nothing is sent. *)
Lemma missing_credential_fails_first_witness :
  generateStoryboard None Sample.painter Sample.no_scenes "noir" "A door opens." []
    = ([], inl MISSING_KEY) ∧
  generateImageForScene (Some "") Sample.painter "A door, ajar" "noir" [Sample.ann] []
    = ([], inl MISSING_KEY) ∧
  generatePromptForScene None Sample.painter "noir" "A door opens." [Sample.ann] []
    = ([], inl MISSING_KEY).
Proof.
  split; [|split].
  - apply (missing_credential_fails_first None Sample.painter Sample.no_scenes
             "noir" "A door opens." "" "" [] []). reflexivity.
  - apply (missing_credential_fails_first (Some "") Sample.painter Sample.no_scenes
             "noir" "" "A door, ajar" "" [Sample.ann] []). reflexivity.
  - apply (missing_credential_fails_first None Sample.painter Sample.no_scenes
             "noir" "" "" "A door opens." [Sample.ann] []). reflexivity.
Defined.

(** A service that answers without text. *)
Lemma prompt_without_text_is_empty_witness :
  generatePromptForScene (Some "key") Sample.silent "noir" "A door opens."
                         [Sample.ann] [] =
    ([NetCall "key" (scenePromptRequest "noir" "A door opens." [Sample.ann])],
     inr EmptyString).
Proof.
  apply (prompt_without_text_is_empty (Some "key") Sample.silent "key" "noir"
           "A door opens." [Sample.ann] [] (Genai.Response.mk None None));
    reflexivity.
Defined.

(** ** Runs on the sample project *)

(** Of the three scenes one has an image and one has no prompt: the batch
    of images sends one request, for the first scene, pauses once, and
    only the first scene changes. *)
Example generate_all_images_sample :
  let w := fire (handleGenerateAllImages (Some "key") Sample.painter)
                (mkWorld Sample.project []) in
  requests (trace w) = [sceneImageRequest Sample.project Sample.door] ∧
  pauses (trace w) = [1500] ∧
  scenes (app w) =
    [with_image "data:image/png;base64,iVBORw0KGgo" false Sample.door;
     Sample.painted; Sample.unwritten].
Proof. repeat split; reflexivity. Qed.

(** Without a key the same batch alerts once and sends nothing. *)
Example generate_all_images_no_key :
  let w := fire (handleGenerateAllImages None Sample.painter)
                (mkWorld Sample.project []) in
  requests (trace w) = [] ∧
  alerts (trace w) =
    ["Erro ao gerar imagem para a cena 1: GEMINI_API_KEY is missing"] ∧
  scenes (app w) =
    [with_isGeneratingImage false Sample.door; Sample.painted; Sample.unwritten].
Proof. repeat split; reflexivity. Qed.

(** A scene of number 1e21 is named as that number is printed. *)
Example generate_image_no_key_number :
  alerts (trace (fire (handleGenerateImage None Sample.painter 0)
                      (mkWorld (setScenes
                                  [mkScene 1000000000000000000000 "Rain." ""
                                           (Some []) "Rain" None None]
                                  Sample.project) [])))
  = ["Erro ao gerar imagem para a cena 1e+21: GEMINI_API_KEY is missing"].
Proof. vm_compute. reflexivity. Qed.

(** Two lines of text between blank ones. *)
Example batch_add_sample :
  let text := "  Night falls. " +:+ JS.nl +:+ JS.nl +:+ "   " +:+ JS.nl +:+ "A storm" in
  scenes (app (fire handleBatchAddScenes
                    (mkWorld (setBatchScenesText text Sample.project) []))) =
    [Sample.door; Sample.painted; Sample.unwritten;
     blankScene 4 "Night falls."; blankScene 5 "A storm"].
Proof. reflexivity. Qed.

(** The request for a scene with both characters carries the image of the
    one whose reference matches the pattern. *)
Example image_parts_sample :
  imageParts "A door, ajar, at night" "noir" [Sample.ann; Sample.bob] =
    [Genai.Part.mk (Some (Genai.mkInlineData "image/png" "QUJD")) None;
     Genai.Part.mk None
       (Some (fullPrompt "A door, ajar, at night" "noir" [Sample.ann; Sample.bob]))].
Proof. reflexivity. Qed.

(** Numbers as a template literal prints them: all the digits of an
    integer below 2^53, the digits of the nearest double beyond, in
    exponent notation from 1e21 on. *)
Example string_of_number_sample :
  JS.string_of_number <$>
    [0; 12; -7; 9007199254740993; 1152921504606846976;
     999999999999999999999; 1000000000000000000000;
     -1000000000000000000000; 1180591620717411303424]%Z
  = ["0"; "12"; "-7"; "9007199254740992"; "1152921504606847000";
     "1e+21"; "1e+21"; "-1e+21"; "1.1805916207174113e+21"].
Proof. vm_compute. reflexivity. Qed.

(** The decoder of the archive takes whole groups of four characters and
    no data URL. *)
Example decodes_sample :
  JSZip.decodes <$> ["AAAA"; "QUJD"; "PHN2Zz48L3N2Zz4="; "iVBORw0KGgo";
                     "data:image/png;base64,AAAA"; "AA AA"]
  = [true; true; true; false; false; true].
Proof. reflexivity. Qed.

(** A second file of a name replaces the first where it is. *)
Example file_sample :
  JSZip.file "cena_1.png" "QUJD" [("cena_1.png", "AAAA"); ("cena_2.png", "AAAA")]
  = [("cena_1.png", "QUJD"); ("cena_2.png", "AAAA")].
Proof. reflexivity. Qed.

(** The project file of the first sample character and what is read of it. *)
Example of_character_sample :
  Json.of_character Sample.ann =
    Json.Object [("id", Json.Str "c-ann"); ("name", Json.Str "Ann");
                 ("prompt", Json.Str "tall, red coat");
                 ("referenceImage", Json.Str "data:image/png;base64,QUJD")] ∧
  Json.typed (Json.Object [("casting", Json.Array [Json.of_character Sample.ann])])
    = Some (JObject (ProjectData.mk None None (Some [Sample.ann]) None)) ∧
  Json.typed (Json.Object [("scenes", Json.Number 7)]) = None ∧
  Json.typed (Json.Number 42) = Some JOther.
Proof. repeat split; reflexivity. Qed.

(* ===================================================================== *)
(** * Further properties of the handlers and of the client *)
(* ===================================================================== *)

(** ** Prompts: one scene and the batch *)

Section Prompts.

Variable KEY : option string.
Variable gc : list Event → string → Genai.Request → Error + Genai.Response.t.

Lemma generatePromptForScene_trace (style textExcerpt : string)
    (cs : list Character) (tr : list Event) :
  (generatePromptForScene KEY gc style textExcerpt cs tr).1 =
    tr ++ attempt KEY (scenePromptRequest style textExcerpt cs).
Proof.
  unfold generatePromptForScene, attempt.
  destruct KEY as [[|c k]|]; simpl; rewrite ?app_nil_r; try done.
  unfold mbind, IO_bind, ai_generateContent.
  destruct (gc _ _ _) as [err|resp]; simpl; [done|].
  by destruct (Genai.Response.text resp) as [[|]|].
Qed.

(** With a credential the result of the prompt call is the text of the
    answer, the empty string for an answer without text, or the error the
    service rejected with. *)
Lemma generatePromptForScene_result (key style textExcerpt : string)
    (cs : list Character) (tr : list Event) :
  KEY = Some key → JS.truthy key = true →
  (generatePromptForScene KEY gc style textExcerpt cs tr).2 =
    match gc tr key (scenePromptRequest style textExcerpt cs) with
    | inl err => inl err
    | inr response => inr (default EmptyString (Genai.Response.text response))
    end.
Proof.
  intros -> Hkey. unfold generatePromptForScene.
  destruct key as [|c k]; [done|].
  unfold mbind, IO_bind, ai_generateContent.
  destruct (gc _ _ _) as [err|resp]; simpl; [done|].
  by destruct (Genai.Response.text resp) as [[|]|].
Qed.

Lemma handleGeneratePromptForScene_run (i : nat) (closure : AppState)
    (w : World) (scene : Scene) :
  scenes closure !! i = Some scene →
  handleGeneratePromptForScene KEY gc i closure w =
    mkWorld
      (match promptOutcome KEY gc closure scene (trace w) with
       | inr p => updateScenes (assign i (with_visualPrompt p)) (app w)
       | inl _ => app w
       end)
      (trace w ++ attempt KEY (scenePromptRequestOf closure scene) ++
       match promptOutcome KEY gc closure scene (trace w) with
       | inr _ => []
       | inl err => promptFailureEvents scene err
       end).
Proof.
  intros Hi. unfold handleGeneratePromptForScene, promptOutcome. rewrite Hi.
  pose proof (generatePromptForScene_trace (style closure) (textExcerpt scene)
                (selectedChars closure scene) (trace w)) as Htr.
  destruct (generatePromptForScene _ _ _ _ _ _) as [tr [err|p]]; simpl in *;
    subst tr; unfold write, emit, scenePromptRequestOf; simpl;
    by rewrite <- ?app_assoc, ?app_nil_r.
Qed.

Lemma handleGenerateAllPrompts_targets (closure : AppState) (w : World) :
  handleGenerateAllPrompts KEY gc closure w =
    fold_left (promptTurn KEY gc closure) (promptTargets (scenes closure)) w.
Proof.
  unfold handleGenerateAllPrompts, promptTargets.
  rewrite <- fold_left_filter. revert w.
  induction (seq 0 (length (scenes closure))) as [|i l IH]; intros w; [done|].
  simpl. rewrite <- IH. f_equal.
  destruct (scenes closure !! i) as [s|]; [|done].
  by destruct (negb (JS.truthy (visualPrompt s))).
Qed.

Lemma promptTurns_frame (closure : AppState) (l : list nat) (w : World) :
  frameExcept l (app w) (app (fold_left (promptTurn KEY gc closure) l w)).
Proof.
  revert w. induction l as [|i l IH]; intros w; simpl.
  - apply frameExcept_refl.
  - apply (frameExcept_trans [i] l _ (app (promptTurn KEY gc closure w i)));
      [|apply IH].
    apply handleGeneratePromptForScene_frame.
Qed.

Lemma promptTurns_done (closure : AppState) (l : list nat) (w : World) :
  NoDup l →
  (∀ j, j ∈ l → scenes (app w) !! j = scenes closure !! j) →
  ∀ j s, j ∈ l → scenes closure !! j = Some s →
    ∃ p, scenes (app (fold_left (promptTurn KEY gc closure) l w)) !! j
           = Some (with_visualPrompt p s).
Proof.
  revert w. induction l as [|i l IH]; intros w Hnd Hlive j s Hin Hs.
  { by apply elem_of_nil in Hin. }
  apply NoDup_cons in Hnd as [Hi Hnd]. simpl.
  destruct (handleGeneratePromptForScene_frame KEY gc i closure w)
    as (_ & _ & _ & Hj1).
  destruct (decide (j = i)) as [->|Hne].
  - destruct (promptTurns_frame closure l (promptTurn KEY gc closure w i))
      as (_ & _ & _ & Hj).
    rewrite Hj by done. unfold promptTurn. simpl.
    rewrite (handleGeneratePromptForScene_run i closure w s Hs). simpl.
    destruct (promptOutcome _ _ _ _ _) as [err|p]; simpl.
    + exists (visualPrompt s).
      rewrite Hlive, Hs by apply list_elem_of_here. by destruct s.
    + exists p. unfold assign.
      by rewrite list_lookup_alter_eq, Hlive, Hs by apply list_elem_of_here.
  - apply elem_of_cons in Hin as [?|Hin]; [done|].
    apply IH; [done| |done|done].
    intros k Hk. unfold promptTurn. simpl.
    assert (k ∉ [i]).
    { intros [->|[]%elem_of_nil]%elem_of_cons. done. }
    rewrite Hj1 by done. apply Hlive. by apply list_elem_of_further.
Qed.

Lemma promptTurn_trace (closure : AppState) (w : World) (i : nat) (s : Scene) :
  scenes closure !! i = Some s →
  pauses (trace (promptTurn KEY gc closure w i)) = pauses (trace w) ++ [1500] ∧
  requests (trace (promptTurn KEY gc closure w i)) =
    requests (trace w) ++ requests (attempt KEY (scenePromptRequestOf closure s)).
Proof.
  intros Hs. unfold promptTurn. simpl.
  rewrite (handleGeneratePromptForScene_run i closure w s Hs). simpl.
  rewrite !pauses_app, !requests_app.
  assert (pauses (attempt KEY (scenePromptRequestOf closure s)) = []) as ->.
  { unfold attempt. by destruct KEY as [[|]|]. }
  destruct (promptOutcome _ _ _ _ _); simpl; by rewrite ?app_nil_r.
Qed.

Lemma promptTurns_trace (closure : AppState) (l : list nat) (w : World) :
  (∀ i, i ∈ l → is_Some (scenes closure !! i)) →
  let w' := fold_left (promptTurn KEY gc closure) l w in
  pauses (trace w') = pauses (trace w) ++ map (λ _, 1500) l ∧
  requests (trace w') =
    requests (trace w) ++
    flat_map (λ s, requests (attempt KEY (scenePromptRequestOf closure s)))
             (omap (λ i, scenes closure !! i) l).
Proof.
  revert w. induction l as [|i l IH]; intros w Hl; simpl.
  - by rewrite !app_nil_r.
  - destruct (Hl i) as [s Hs]; [apply list_elem_of_here|].
    destruct (IH (promptTurn KEY gc closure w i)) as [Hp Hr].
    { intros k Hk. apply Hl. by apply list_elem_of_further. }
    destruct (promptTurn_trace closure w i s Hs) as [Hp1 Hr1].
    rewrite Hp, Hr, Hp1, Hr1, Hs. simpl.
    by rewrite <- !app_assoc.
Qed.

(** X1. The batch of prompts runs single-scene prompt generation, each run
    followed by one pause, for the indices of the scenes whose prompt is
    empty, in the order of the list, and for no other index: the pauses
    are one per such scene, the requests sent are those of these scenes
    in order (none without a credential), a scene that has a prompt is
    the same afterwards, and every other scene changes in its prompt at
    most. *)
Theorem generate_all_prompts_targets (w : World) :
  let closure := app w in
  let scs := scenes closure in
  let unwritten := λ s : Scene, negb (JS.truthy (visualPrompt s)) in
  let w' := fire (handleGenerateAllPrompts KEY gc) w in
  w' = fold_left (promptTurn KEY gc closure) (promptTargets scs) w ∧
  omap (λ i, scs !! i) (promptTargets scs) = List.filter unwritten scs ∧
  pauses (trace w') = pauses (trace w) ++ map (λ _, 1500) (promptTargets scs) ∧
  requests (trace w') =
    requests (trace w) ++
    flat_map (λ s, requests (attempt KEY (scenePromptRequestOf closure s)))
             (List.filter unwritten scs) ∧
  length (scenes (app w')) = length scs ∧
  (∀ j s, scs !! j = Some s → visualPrompt s ≠ EmptyString →
          scenes (app w') !! j = Some s) ∧
  (∀ j s, scs !! j = Some s → visualPrompt s = EmptyString →
          ∃ p, scenes (app w') !! j = Some (with_visualPrompt p s)).
Proof.
  intros closure scs unwritten w'. subst w'. unfold fire. fold closure.
  rewrite handleGenerateAllPrompts_targets. fold scs.
  split; [done|].
  pose proof (omap_lookup_filter unwritten scs) as Hscenes.
  split; [exact Hscenes|].
  destruct (promptTurns_trace closure (promptTargets scs) w) as [Hp Hr].
  { intros i (s & Hs & _)%(filter_lookup_spec unwritten). by exists s. }
  split; [exact Hp|].
  split; [fold scs in Hr; by rewrite <- Hscenes|].
  destruct (promptTurns_frame closure (promptTargets scs) w)
    as (_ & Hlen & _ & Hother).
  split; [exact Hlen|]. split.
  - intros j s Hs Hw. rewrite Hother; [done|].
    intros (s1 & Hs1 & Hw1)%(filter_lookup_spec unwritten).
    assert (s1 = s) as -> by congruence. unfold unwritten in Hw1.
    by destruct (visualPrompt s).
  - intros j s Hs Hw.
    apply (promptTurns_done closure (promptTargets scs) w); try done.
    + unfold promptTargets. apply NoDup_ListNoDup, List.NoDup_filter, seq_NoDup.
    + apply (filter_lookup_spec unwritten). exists s. split; [done|].
      unfold unwritten. by rewrite Hw.
Qed.

(** X2. With a credential, when the service answers the prompt request
    of a scene without text, single-scene prompt generation sets the
    prompt of that scene to the empty string, whatever it was, after that
    one request and without any alert. *)
Theorem textless_answer_blanks_the_prompt (key : string) (w : World) (i : nat)
    (scene : Scene) (response : Genai.Response.t) :
  KEY = Some key → JS.truthy key = true →
  scenes (app w) !! i = Some scene →
  gc (trace w) key (scenePromptRequestOf (app w) scene) = inr response →
  noText response →
  let w' := fire (handleGeneratePromptForScene KEY gc i) w in
  scenes (app w') !! i = Some (with_visualPrompt EmptyString scene) ∧
  trace w' = trace w ++ [NetCall key (scenePromptRequestOf (app w) scene)] ∧
  alerts (trace w') = alerts (trace w).
Proof.
  intros HK Hkey Hi Hgc Hno w'. subst w'. unfold fire.
  rewrite (handleGeneratePromptForScene_run i (app w) w scene Hi).
  unfold promptOutcome.
  rewrite (generatePromptForScene_result key _ _ _ _ HK Hkey).
  fold (scenePromptRequestOf (app w) scene). rewrite Hgc.
  assert (default EmptyString (Genai.Response.text response) = EmptyString) as ->.
  { unfold noText in Hno. by destruct (Genai.Response.text response) as [[|]|]. }
  simpl. subst KEY. unfold attempt. destruct key as [|c k]; [done|].
  rewrite app_nil_r. split; [|split; [done|]].
  - unfold assign. by rewrite list_lookup_alter_eq, Hi.
  - rewrite alerts_app. apply app_nil_r.
Qed.

End Prompts.

(** ** The cast and the selections *)

Lemma includes_spec (xs : list string) (x : string) :
  JS.includes xs x = true ↔ x ∈ xs.
Proof. unfold JS.includes. apply bool_decide_eq_true. Qed.

Lemma without_absent (id' : string) (ids : list string) :
  id' ∉ ids → without id' ids = ids.
Proof.
  intros Hno. unfold without. induction ids as [|x ids IH]; simpl; [done|].
  apply not_elem_of_cons in Hno as [Hne Hno].
  destruct (String.eqb_spec x id') as [->|_]; [done|]. simpl. by rewrite IH.
Qed.

Lemma with_selection_same (s : Scene) :
  with_selectedCharacterIds (selectedCharacterIds s) s = s.
Proof. by destruct s. Qed.

Lemma selection_with (ids : list string) (s : Scene) :
  selection (with_selectedCharacterIds (Some ids) s) = ids.
Proof. done. Qed.

(** The selection a toggle leaves in a scene. *)
Lemma toggled_selection (cid : string) (s : Scene) :
  let s' :=
    if JS.includes (selection s) cid
    then with_selectedCharacterIds (Some (without cid (selection s))) s
    else with_selectedCharacterIds (Some (selection s ++ [cid])) s in
  (cid ∈ selection s' ↔ cid ∉ selection s) ∧
  ∀ x, x ≠ cid → (x ∈ selection s' ↔ x ∈ selection s).
Proof.
  intros s'. subst s'.
  destruct (JS.includes (selection s) cid) eqn:E; rewrite !selection_with.
  - apply includes_spec in E. split.
    + rewrite without_spec. tauto.
    + intros x Hx. rewrite without_spec. tauto.
  - assert (cid ∉ selection s) as Hno.
    { intros H%includes_spec. congruence. }
    split.
    + rewrite elem_of_app, elem_of_cons. tauto.
    + intros x Hx. rewrite elem_of_app, elem_of_cons, elem_of_nil. tauto.
Qed.

(** X3. Toggling a character in a scene flips whether the scene selects
    its id and leaves the other ids, the other fields of the scene, the
    other scenes and the cast as they were; toggling twice gives back a
    selection with the same members. *)
Theorem toggle_flips_membership (w : World) (i : nat) (cid : string) (s : Scene) :
  scenes (app w) !! i = Some s →
  let w1 := fire (toggleCharacterInScene i cid) w in
  let w2 := fire (toggleCharacterInScene i cid) w1 in
  ∃ s1 s2,
    scenes (app w1) !! i = Some s1 ∧ scenes (app w2) !! i = Some s2 ∧
    (cid ∈ selection s1 ↔ cid ∉ selection s) ∧
    (∀ x, x ≠ cid → (x ∈ selection s1 ↔ x ∈ selection s)) ∧
    (∀ x, x ∈ selection s2 ↔ x ∈ selection s) ∧
    with_selectedCharacterIds (selectedCharacterIds s) s1 = s ∧
    with_selectedCharacterIds (selectedCharacterIds s) s2 = s ∧
    casting (app w1) = casting (app w) ∧
    (∀ j, j ≠ i → scenes (app w1) !! j = scenes (app w) !! j).
Proof.
  intros Hi w1 w2. subst w1 w2.
  unfold fire, toggleCharacterInScene, write, updateScenes, assign. simpl.
  rewrite !list_lookup_alter_eq, Hi. simpl.
  fold (selection s).
  pose proof (toggled_selection cid s) as [H1 H1'].
  set (s1 := if JS.includes (selection s) cid then _ else _) in *.
  fold (selection s1).
  pose proof (toggled_selection cid s1) as [H2 H2'].
  set (s2 := if JS.includes (selection s1) cid then _ else _) in *.
  exists s1, s2. split; [done|]. split; [done|].
  split; [exact H1|]. split; [exact H1'|].
  split.
  { intros x. destruct (decide (x = cid)) as [->|Hne].
    - rewrite H2, H1. destruct (decide (cid ∈ selection s)); tauto.
    - by rewrite H2', H1'. }
  split.
  { subst s1. destruct (JS.includes _ _); by destruct s. }
  split.
  { subst s2 s1. repeat destruct (JS.includes _ _); by destruct s. }
  split; [done|].
  intros j Hj. by apply list_lookup_alter_ne.
Qed.

(** X4. Removing a character keeps the characters of every other id in
    their order and the scenes in their places; a scene that did not
    select the id is unchanged, and a scene that did select it changes,
    in its selection only, which loses every occurrence of the id. *)
Theorem remove_character_touches_selecting_scenes (id' : string) (w : World) :
  let w' := fire (handleRemoveCharacter id') w in
  casting (app w') =
    List.filter (λ c, negb (String.eqb (id c) id')) (casting (app w)) ∧
  length (scenes (app w')) = length (scenes (app w)) ∧
  (∀ j s, scenes (app w) !! j = Some s → id' ∉ selection s →
          scenes (app w') !! j = Some s) ∧
  (∀ j s, scenes (app w) !! j = Some s → id' ∈ selection s →
          ∃ s', scenes (app w') !! j = Some s' ∧ s' ≠ s ∧
                selection s' = without id' (selection s) ∧
                with_selectedCharacterIds (selectedCharacterIds s) s' = s).
Proof.
  intros w'. subst w'. unfold fire, handleRemoveCharacter. simpl.
  split; [done|]. split; [by rewrite length_map|].
  split.
  - intros j s Hs Hno. change (map ?f ?l) with (f <$> l).
    rewrite list_lookup_fmap, Hs. simpl. f_equal.
    unfold selection in Hno.
    destruct s as [n t c [ids|] v u g]; simpl in *; [|done].
    by rewrite without_absent.
  - intros j s Hs Hin. change (map ?f ?l) with (f <$> l).
    rewrite list_lookup_fmap, Hs. simpl. eexists. split; [reflexivity|].
    unfold selection in *.
    destruct s as [n t c [ids|] v u g]; simpl in *;
      [|by apply elem_of_nil in Hin].
    split; [|done].
    intros [= Heq]. assert (id' ∈ without id' ids) as H by by rewrite Heq.
    apply without_spec in H. tauto.
Qed.

(** X5. Adding a character under an id that no character has, in a state
    whose selections are within the cast, and then removing that id gives
    back the state. *)
Theorem add_then_remove_restores (uuid : string) (w : World) :
  uuid ∉ castIds (app w) → selectionOk (app w) →
  app (fire (handleRemoveCharacter uuid) (fire (handleAddCharacter uuid) w))
    = app w.
Proof.
  intros Hfresh Hok. unfold fire, handleRemoveCharacter, handleAddCharacter.
  simpl.
  assert (List.filter (λ c, negb (String.eqb (id c) uuid))
            (casting (app w) ++ [mkCharacter uuid "" "" None])
          = casting (app w)) as ->.
  { rewrite List.filter_app. simpl. rewrite String.eqb_refl. simpl.
    rewrite app_nil_r. unfold castIds in Hfresh.
    induction (casting (app w)) as [|c cs IH]; simpl; [done|].
    simpl in Hfresh. apply not_elem_of_cons in Hfresh as [Hne Hno].
    destruct (String.eqb_spec (id c) uuid) as [E|_]; [by subst|].
    simpl. by rewrite IH. }
  assert (map (λ s, with_selectedCharacterIds
                      (without uuid <$> selectedCharacterIds s) s)
              (scenes (app w)) = scenes (app w)) as ->.
  { unfold selectionOk in Hok.
    induction Hok as [|s scs Hs _ IH]; simpl; [done|]. rewrite IH. f_equal.
    unfold selection in Hs.
    destruct s as [n t c [ids|] v u g]; simpl in *; [|done].
    rewrite without_absent; [done|]. intros Hin. apply Hfresh. by apply Hs. }
  by destruct w as [[]].
Qed.

(** X6. Clearing the reference image of a character (the update of
    [referenceImage] to the empty string) keeps the ids of the cast and
    the scenes, leaves the characters of other ids alone, and leaves the
    characters of that id with their name and prompt and with a reference
    that contributes no image part to a request. *)
Theorem cleared_reference_is_not_sent (id' : string) (w : World) :
  let w' := fire (handleUpdateCharacter id' K_referenceImage EmptyString) w in
  castIds (app w') = castIds (app w) ∧
  scenes (app w') = scenes (app w) ∧
  (∀ j c, casting (app w) !! j = Some c → id c ≠ id' →
          casting (app w') !! j = Some c) ∧
  (∀ j c, casting (app w) !! j = Some c → id c = id' →
          ∃ c', casting (app w') !! j = Some c' ∧
                name c' = name c ∧ prompt c' = prompt c ∧
                referenceImage c' = Some EmptyString ∧
                conditioning c' = None ∧
                ∀ parts, push_reference parts c' = parts).
Proof.
  intros w'. subst w'. unfold fire, handleUpdateCharacter.
  split.
  { exact (castIds_update id' K_referenceImage EmptyString (casting (app w))
             ltac:(done)). }
  simpl. split; [done|].
  split.
  - intros j c Hc Hne. change (map ?f ?l) with (f <$> l).
    rewrite list_lookup_fmap, Hc. simpl.
    by destruct (String.eqb_spec (id c) id').
  - intros j c Hc He. change (map ?f ?l) with (f <$> l).
    rewrite list_lookup_fmap, Hc. simpl.
    destruct (String.eqb_spec (id c) id'); [|done].
    eexists. split; [reflexivity|]. done.
Qed.

(** ** Scene numbers, and the buttons against their handlers *)

Lemma split_allWhiteSpace_inv (sep : ascii) (s : string) :
  JS.isWhiteSpace sep = true →
  Forall (λ line, allWhiteSpace line = true) (JS.split sep s) →
  allWhiteSpace s = true.
Proof.
  intros Hsep. induction s as [|c s IH]; simpl; [done|].
  destruct (Ascii.eqb_spec c sep) as [->|Hne].
  - intros [_ H]%Forall_cons. by rewrite Hsep, IH.
  - destruct (JS.split sep s) as [|h t] eqn:E.
    + by apply split_nonempty in E.
    + intros [Hh Ht]%Forall_cons. simpl in Hh.
      apply andb_prop in Hh as [Hc Hh]. rewrite Hc. apply IH. by constructor.
Qed.

(** The lines batch adding keeps. *)
Lemma kept_lines (a : AppState) :
  List.filter (λ line, 0 <? String.length (JS.trim line))
              (JS.split JS.LF (batchScenesText a))
  = List.filter (λ line, negb (isBlank line)) (JS.split JS.LF (batchScenesText a)).
Proof. apply List.filter_ext. intros l. apply isBlank_length. Qed.

(** A text that [trim] does not empty has a line that it does not empty. *)
Lemma kept_lines_nonempty (a : AppState) :
  batchAddDisabled a = false →
  List.filter (λ line, negb (isBlank line)) (JS.split JS.LF (batchScenesText a)) ≠ [].
Proof.
  unfold batchAddDisabled. intros Hen Hnil.
  assert (allWhiteSpace (batchScenesText a) = true) as Hall.
  { apply (split_allWhiteSpace_inv JS.LF); [done|].
    apply Forall_forall. intros l Hl.
    destruct (isBlank l) eqn:E.
    - unfold isBlank in E. apply bool_decide_eq_true in E. by apply trim_empty.
    - assert (l ∈ List.filter (λ line, negb (isBlank line))
                    (JS.split JS.LF (batchScenesText a))) as Hin.
      { apply list_elem_of_In, List.filter_In. split; [by apply list_elem_of_In|].
        by rewrite E. }
      rewrite Hnil in Hin. by apply elem_of_nil in Hin. }
  apply trim_empty in Hall. by rewrite Hall in Hen.
Qed.

Lemma handleBatchAddScenes_scenes (w : World) :
  scenes (app (fire handleBatchAddScenes w)) =
    scenes (app w) ++
    imap (λ idx line,
            blankScene (Z.of_nat (length (scenes (app w)) + idx + 1)) (JS.trim line))
         (List.filter (λ line, negb (isBlank line))
                      (JS.split JS.LF (batchScenesText (app w)))).
Proof.
  unfold fire, handleBatchAddScenes.
  destruct (negb (JS.truthy (JS.trim (batchScenesText (app w))))) eqn:E.
  - assert (allWhiteSpace (batchScenesText (app w)) = true) as Hall.
    { apply trim_empty. by destruct (JS.trim (batchScenesText (app w))). }
    rewrite filter_none, app_nil_r; [done|].
    eapply Forall_impl; [apply (split_allWhiteSpace _ _ Hall)|].
    intros l Hl. simpl. apply trim_empty in Hl. unfold isBlank.
    by rewrite bool_decide_eq_true_2.
  - simpl. by rewrite kept_lines.
Qed.

(** X7. The button of batch adding is disabled exactly when the handler
    would do nothing: with the button disabled the handler changes
    nothing, and with it enabled the handler adds at least one scene and
    empties the text, which disables the button. *)
Theorem batch_add_button_agrees_with_handler (w : World) :
  let w' := fire handleBatchAddScenes w in
  (batchAddDisabled (app w) = true → w' = w) ∧
  (batchAddDisabled (app w) = false →
     length (scenes (app w)) < length (scenes (app w')) ∧
     batchScenesText (app w') = EmptyString ∧
     batchAddDisabled (app w') = true).
Proof.
  intros w'. split.
  - intros Hd. subst w'. unfold fire, handleBatchAddScenes.
    unfold batchAddDisabled in Hd. by rewrite Hd.
  - intros He. split.
    + subst w'. rewrite handleBatchAddScenes_scenes, length_app, length_imap.
      pose proof (kept_lines_nonempty (app w) He) as Hne.
      destruct (List.filter _ _); [done|]. simpl. lia.
    + subst w'. unfold fire, handleBatchAddScenes.
      unfold batchAddDisabled in He. by rewrite He.
Qed.

(** X8. Batch adding keeps a list of scenes numbered by place (number
    [i + 1] at index [i]) numbered by place. *)
Theorem batch_add_keeps_numbering (w : World) :
  wellNumbered (scenes (app w)) →
  wellNumbered (scenes (app (fire handleBatchAddScenes w))).
Proof.
  intros Hwn i s. rewrite handleBatchAddScenes_scenes.
  intros [Hold|[Hge Hnew]]%lookup_app_Some; [by apply Hwn|].
  rewrite list_lookup_imap in Hnew.
  destruct (_ !! (i - length (scenes (app w)))); simpl in Hnew; [|done].
  injection Hnew as <-. simpl. lia.
Qed.

(** X9. Scene numbers are not kept unique: in a list of [n] scenes
    numbered by place, deleting any scene but the last and then batch
    adding a text with a non-blank line leaves the former last scene and
    the first added scene side by side with the same number [n], hence
    with the same file name in the [images] folder of an export. *)
Theorem delete_then_batch_add_repeats_a_number (w : World) (i : nat) :
  wellNumbered (scenes (app w)) →
  i + 1 < length (scenes (app w)) →
  batchAddDisabled (app w) = false →
  let n := length (scenes (app w)) in
  let w' := fire handleBatchAddScenes (fire (onDeleteScene i) w) in
  ∃ s1 s2,
    scenes (app w') !! (n - 2) = Some s1 ∧
    scenes (app w') !! (n - 1) = Some s2 ∧
    scenes (app w) !! (n - 1) = Some s1 ∧
    sceneNumber s1 = Z.of_nat n ∧ sceneNumber s2 = Z.of_nat n ∧
    imageFileName s1 = imageFileName s2.
Proof.
  intros Hwn Hi Hen n w'.
  assert (Hn : n = length (scenes (app w))) by done. clearbody n.
  destruct (lookup_lt_is_Some_2 (scenes (app w)) (n - 1)) as [s1 Hs1]; [lia|].
  set (w1 := fire (onDeleteScene i) w) in *.
  assert (Hdel : scenes (app w1) = delete i (scenes (app w))) by done.
  assert (Htext : batchScenesText (app w1) = batchScenesText (app w)) by done.
  assert (Hlen : length (scenes (app w1)) = n - 1).
  { rewrite Hdel, length_delete; [lia|]. apply lookup_lt_is_Some_2. lia. }
  assert (Hen1 : batchAddDisabled (app w1) = false) by done.
  pose proof (kept_lines_nonempty (app w1) Hen1) as Hne.
  subst w'. 
  destruct (List.filter _ (JS.split JS.LF (batchScenesText (app w1))))
    as [|l ls] eqn:F; [done|].
  exists s1, (blankScene (Z.of_nat (n - 1 + 0 + 1)) (JS.trim l)).
  assert (Hn1 : sceneNumber s1 = Z.of_nat n).
  { rewrite (Hwn _ _ Hs1). lia. }
  split; [|split; [|split; [done|split; [done|split]]]].
  - rewrite handleBatchAddScenes_scenes, lookup_app_l by lia.
    rewrite Hdel, list_lookup_delete_ge by lia.
    replace (S (n - 2)) with (n - 1) by lia. done.
  - rewrite handleBatchAddScenes_scenes, lookup_app_r by lia.
    rewrite Hlen, Nat.sub_diag, F. done.
  - simpl. lia.
  - unfold imageFileName. rewrite Hn1. simpl. do 3 f_equal. lia.
Qed.

(** X10. For a scene without an image, not generating, whose prompt is
    not empty but is all white space, the button of the scene is
    disabled, and yet the batch of images takes the scene. *)
Theorem blank_prompt_button_disabled_but_batch_runs (s : Scene) :
  JS.truthy_opt (imageUrl s) = false →
  JS.truthy_flag (isGeneratingImage s) = false →
  visualPrompt s ≠ EmptyString →
  allWhiteSpace (visualPrompt s) = true →
  imageArea s = GenerateButton true ∧ wantsImage s = true.
Proof.
  intros Hu Hg Hp Hws. unfold imageArea, wantsImage.
  rewrite Hu, Hg. apply trim_empty in Hws. rewrite Hws. simpl.
  split.
  - destruct (imageUrl s) as [[|]|]; done.
  - by destruct (visualPrompt s).
Qed.

(** ** The client: what a call returns *)

Section Outcomes.

Variable KEY : option string.
Variable gc : list Event → string → Genai.Request → Error + Genai.Response.t.
Variable parse : string → option (list Scene).

(** X11. With a credential, segmentation sends exactly one request; it
    throws the error of the service when the call is rejected, the
    no-response error when the answer has no text, and the JSON error,
    after logging the raw text, when the text does not parse; it returns
    the parsed scenes otherwise, and logs nothing then. *)
Theorem storyboard_outcomes (key style story : string) (tr : list Event) :
  KEY = Some key → JS.truthy key = true →
  let request := storyboardRequest style story in
  let r := generateStoryboard KEY gc parse style story tr in
  requests r.1 = requests tr ++ [request] ∧
  (∀ err, gc tr key request = inl err →
     r = (tr ++ [NetCall key request], inl err)) ∧
  (∀ response, gc tr key request = inr response → noText response →
     r = (tr ++ [NetCall key request], inl NO_RESPONSE)) ∧
  (∀ response text, gc tr key request = inr response →
     Genai.Response.text response = Some text → text ≠ EmptyString →
     match parse text with
     | Some scs => r = (tr ++ [NetCall key request], inr scs)
     | None =>
         r = (tr ++ [NetCall key request;
                     ConsoleError ["Failed to parse JSON"; text]],
              inl BAD_JSON)
     end).
Proof.
  intros -> Hkey request r. subst r. unfold generateStoryboard.
  destruct key as [|c k]; [done|].
  unfold mbind, IO_bind, ai_generateContent.
  change (Genai.mkRequest "gemini-3.1-pro-preview" _ _) with request.
  destruct (gc tr (String c k) request) as [err|resp] eqn:Hgc;
    cbn [fst snd].
  - split; [by rewrite requests_app|]. split; [by intros ? [= <-]|].
    split; [done|done].
  - destruct (Genai.Response.text resp) as [[|a t]|] eqn:Ht;
      unfold throw; cbn [fst snd].
    + split; [by rewrite requests_app|]. split; [done|].
      split; [by intros ? [= <-]|]. intros ? ? [= <-]. rewrite Ht.
      by intros [= <-].
    + destruct (parse (String a t)) as [scs|] eqn:Hp;
        unfold log, mret, IO_ret; cbn [fst snd].
      * split; [by rewrite requests_app|]. split; [done|].
        split; [intros ? [= <-]; unfold noText; by rewrite Ht|].
        intros ? ? [= <-]. rewrite Ht. intros [= <-] _. by rewrite Hp.
      * split; [by rewrite <- app_assoc, requests_app|]. split; [done|].
        split; [intros ? [= <-]; unfold noText; by rewrite Ht|].
        intros ? ? [= <-]. rewrite Ht. intros [= <-] _. rewrite Hp.
        by rewrite <- app_assoc.
    + split; [by rewrite requests_app|]. split; [done|].
      split; [by intros ? [= <-]|]. intros ? ? [= <-]. by rewrite Ht.
Qed.

Lemma firstImage_spec (parts : list Genai.Part.t) :
  match firstImage parts with
  | Some url =>
      ∃ pre part post inlineData,
        parts = pre ++ part :: post ∧
        Forall (λ p, Genai.Part.inlineData p = None) pre ∧
        Genai.Part.inlineData part = Some inlineData ∧
        url = pngUrl (Genai.data inlineData)
  | None => Forall (λ p, Genai.Part.inlineData p = None) parts
  end.
Proof.
  induction parts as [|p parts IH]; simpl; [done|].
  destruct (Genai.Part.inlineData p) as [d|] eqn:E.
  - exists [], p, parts, d. done.
  - destruct (firstImage parts) as [url|].
    + destruct IH as (pre & part & post & d & -> & Hpre & Hd & ->).
      exists (p :: pre), part, post, d. repeat split; try done.
      by constructor.
    + by constructor.
Qed.

Lemma pngUrl_exec (data : string) :
  data ≠ EmptyString → DataUri.all_dot data = true →
  DataUri.exec (pngUrl data) = Some ("image/png", data).
Proof.
  intros Hd Hdot. apply DataUri_exec_spec. exists "png". by repeat split.
Qed.

Lemma pngUrl_exec_cases (data : string) :
  DataUri.exec (pngUrl data) =
    if JS.truthy data && DataUri.all_dot data then Some ("image/png", data)
    else None.
Proof.
  destruct (JS.truthy data && DataUri.all_dot data) eqn:E.
  - apply andb_prop in E as [Ht Hd]. apply pngUrl_exec; [|done].
    by destruct data.
  - unfold pngUrl.
    change ("data:image/png;base64," +:+ data)
      with (String "d" (String "a" (String "t" (String "a" (String ":"
           (String "i" (String "m" (String "a" (String "g" (String "e"
           (String "/" (String "p" (String "n" (String "g" (String ";"
           (String "b" (String "a" (String "s" (String "e" (String "6"
           (String "4" (String "," data)))))))))))))))))))))).
    unfold DataUri.exec. simpl. by rewrite E.
Qed.

(** X12. With a credential and an answer of the service, image generation
    sends one request, fails with the no-image error exactly when no part
    of the first candidate carries inline data, and otherwise returns the
    payload of the first part that does, as a PNG data URL whatever media
    type the part declares; that URL, used as the reference image of a
    character, is sent back as a PNG part with the same payload when the
    payload is not empty and has no line break, and is not sent at all
    otherwise. *)
Theorem image_outcomes (key prompt style : string) (cs : list Character)
    (tr : list Event) (response : Genai.Response.t) :
  KEY = Some key → JS.truthy key = true →
  gc tr key (imageRequest prompt style cs) = inr response →
  let r := generateImageForScene KEY gc prompt style cs tr in
  r.1 = tr ++ [NetCall key (imageRequest prompt style cs)] ∧
  (r.2 = inl NO_IMAGE ↔
     Forall (λ p, Genai.Part.inlineData p = None) (responseParts response)) ∧
  (∀ url, r.2 = inr url →
     ∃ pre part post inlineData,
       responseParts response = pre ++ part :: post ∧
       Forall (λ p, Genai.Part.inlineData p = None) pre ∧
       Genai.Part.inlineData part = Some inlineData ∧
       url = pngUrl (Genai.data inlineData) ∧
       ∀ id' name' prompt',
         conditioning (mkCharacter id' name' prompt' (Some url)) =
           if JS.truthy (Genai.data inlineData)
              && DataUri.all_dot (Genai.data inlineData)
           then Some (Genai.Part.mk
                        (Some (Genai.mkInlineData "image/png"
                                 (Genai.data inlineData)))
                        None)
           else None).
Proof.
  intros -> Hkey Hgc r. subst r. unfold generateImageForScene.
  destruct key as [|c k]; [done|].
  unfold mbind, IO_bind, ai_generateContent. rewrite Hgc. simpl.
  pose proof (firstImage_spec (responseParts response)) as Hspec.
  destruct (firstImage (responseParts response)) as [url|]; simpl.
  - split; [done|]. split.
    + split; [done|]. intros Hall.
      destruct Hspec as (pre & part & post & d & Heq & _ & Hd & _).
      rewrite Heq in Hall. apply Forall_app in Hall as [_ Hall].
      apply Forall_cons in Hall as [Hnone _]. congruence.
    + intros ? [= <-].
      destruct Hspec as (pre & part & post & d & Heq & Hpre & Hd & ->).
      exists pre, part, post, d. repeat split; try done.
      intros id' name' prompt'. unfold conditioning. simpl.
      rewrite pngUrl_exec_cases. by destruct (_ && _).
  - split; [done|]. split; done.
Qed.

End Outcomes.

(** ** The storyboard, the archive and the image handlers *)

Section Handlers.

Variable KEY : option string.
Variable gc : list Event → string → Genai.Request → Error + Genai.Response.t.
Variable parse : string → option (list Scene).

(** X13. Storyboard generation with an empty style or story only sets the
    fill-in error: nothing is sent and the scenes stay.  Otherwise it ends
    with the generating flag off and style, story, cast and batch text
    unchanged; on success the scenes are the generated ones, each with an
    empty selection, and the error is cleared; on failure the scenes
    that were there are gone (the list is empty) and the error shown is
    never empty: the message of the error, or the default text. *)
Theorem storyboard_handler_outcomes (w : World) :
  let a := app w in
  let w' := fire (handleGenerateStoryboard KEY gc parse) w in
  let r := generateStoryboard KEY gc parse (style a) (story a) (trace w) in
  (style a = EmptyString ∨ story a = EmptyString →
     trace w' = trace w ∧ scenes (app w') = scenes a ∧
     isGeneratingStoryboard (app w') = isGeneratingStoryboard a ∧
     error (app w') =
       Some (JS.latin1 "Por favor, preencha o estilo e a história.")) ∧
  (style a ≠ EmptyString → story a ≠ EmptyString →
     isGeneratingStoryboard (app w') = false ∧
     style (app w') = style a ∧ story (app w') = story a ∧
     casting (app w') = casting a ∧
     batchScenesText (app w') = batchScenesText a ∧
     (∀ generated, r.2 = inr generated →
        scenes (app w') = with_selectedCharacterIds (Some []) <$> generated ∧
        error (app w') = None ∧ trace w' = r.1) ∧
     (∀ err, r.2 = inl err →
        scenes (app w') = [] ∧
        (∃ shown, error (app w') = Some shown ∧ shown ≠ EmptyString ∧
                  (message err ≠ EmptyString → shown = message err)) ∧
        trace w' = r.1 ++ [ConsoleError [message err]])).
Proof.
  intros a w' r. subst w' r. unfold fire, handleGenerateStoryboard. fold a.
  split.
  - intros [H|H]; rewrite H; simpl; [done|].
    by destruct (JS.truthy (style a)).
  - intros Hs Ht.
    assert (negb (JS.truthy (style a)) || negb (JS.truthy (story a)) = false) as ->.
    { destruct (style a); [done|]. by destruct (story a). }
    cbn [trace write app].
    destruct (generateStoryboard _ _ _ _ _ _) as [tr [err|generated]];
      cbn [fst snd].
    + do 5 (split; [done|]). split; [by intros ? [=]|].
      intros ? [= <-]. split; [done|]. split; [|done].
      simpl. destruct (message err) as [|c m] eqn:E; simpl.
      * eexists. split; [done|]. by split.
      * eexists. split; [done|]. by split.
    + do 5 (split; [done|]). split; [|by intros ? [=]].
      by intros ? [= <-].
Qed.

End Handlers.

(** ** The [images] folder *)

Lemma split_noComma (s : string) :
  noComma s = true → JS.split ","%char s = [s].
Proof.
  induction s as [|c s IH]; simpl; [done|].
  intros [Hc Hs]%andb_prop. apply negb_true_iff in Hc. rewrite Hc.
  by rewrite (IH Hs).
Qed.

Lemma split_at_comma (pre rest : string) :
  noComma pre = true →
  JS.split ","%char (pre +:+ "," +:+ rest) = pre :: JS.split ","%char rest.
Proof.
  induction pre as [|c pre IH]; [done|]. simpl.
  intros [Hc Hs]%andb_prop. apply negb_true_iff in Hc.
  change (String c pre +:+ "," +:+ rest) with (String c (pre +:+ "," +:+ rest)).
  simpl. by rewrite Hc, (IH Hs).
Qed.

Lemma base64Data_pngUrl (data : string) :
  noComma data = true → base64Data (pngUrl data) = Some data.
Proof.
  intros Hd. unfold base64Data, pngUrl.
  change ("data:image/png;base64," +:+ data)
    with ("data:image/png;base64" +:+ "," +:+ data).
  rewrite split_at_comma by done. by rewrite split_noComma.
Qed.

Lemma exportImage_png (folder : list (string * string)) (s : Scene)
    (data : string) :
  imageUrl s = Some (pngUrl data) → data ≠ EmptyString → noComma data = true →
  exportImage folder s = JSZip.file (imageFileName s) data folder.
Proof.
  intros Hs Hne Hnc. unfold exportImage. rewrite Hs.
  pose proof (base64Data_pngUrl data Hnc) as Hb.
  change (pngUrl data) with (String "d" ("ata:image/png;base64," +:+ data)) in *.
  cbn iota. rewrite Hb. by destruct data.
Qed.

Lemma pngEntry_cases (s : Scene) :
  generatedImage s →
  (imageUrl s = None ∧ pngEntry s = None) ∨
  ∃ data, imageUrl s = Some (pngUrl data) ∧ data ≠ EmptyString ∧
          noComma data = true ∧ JSZip.decodes data = true ∧
          pngEntry s = Some (imageFileName s, data).
Proof.
  intros [Hs|(data & Hs & Hne & Hnc & Hdec)]; unfold pngEntry; rewrite Hs.
  - by left.
  - right. exists data. repeat (split; [done|]).
    assert (DataUri.strip_prefix "data:image/png;base64," (pngUrl data)
            = Some data) as -> by by apply strip_prefix_spec.
    done.
Qed.

Lemma omap_cons {A B} (f : A → option B) (x : A) (l : list A) :
  omap f (x :: l) = match f x with Some y => y :: omap f l | None => omap f l end.
Proof. done. Qed.

(** The writes of an export, one after the other. *)
Lemma export_folder (scs : list Scene) (folder : list (string * string)) :
  Forall generatedImage scs →
  fold_left exportImage scs folder =
    fold_left (λ files entry, JSZip.file entry.1 entry.2 files)
              (omap pngEntry scs) folder.
Proof.
  intros Hall. revert folder.
  induction Hall as [|s scs Hs _ IH]; intros folder; [done|].
  cbn [fold_left]. rewrite IH, omap_cons.
  destruct (pngEntry_cases s Hs)
    as [[Hu ->]|(data & Hu & Hne & Hnc & _ & ->)].
  - unfold exportImage. by rewrite Hu.
  - by rewrite (exportImage_png folder s data Hu Hne Hnc).
Qed.

(** A write under a new name adds a file at the end. *)
Lemma file_fresh (name data : string) (files : list (string * string)) :
  name ∉ files.*1 → JSZip.file name data files = files ++ [(name, data)].
Proof.
  induction files as [|[n d] files IH]; [done|]. simpl.
  intros [Hne Hin]%not_elem_of_cons.
  destruct (String.eqb n name) eqn:E.
  - apply String.eqb_eq in E. congruence.
  - by rewrite IH.
Qed.

Lemma writes_distinct (entries folder : list (string * string)) :
  NoDup (folder.*1 ++ entries.*1) →
  fold_left (λ files entry, JSZip.file entry.1 entry.2 files) entries folder
    = folder ++ entries.
Proof.
  revert folder. induction entries as [|[n d] entries IH]; intros folder Hnd.
  { by rewrite app_nil_r. }
  cbn [fold_left fst snd]. rewrite file_fresh.
  - rewrite IH; [by rewrite <- app_assoc|].
    rewrite fmap_app. simpl. rewrite <- app_assoc. exact Hnd.
  - apply NoDup_app in Hnd as (_ & Hdis & _). intros Hin.
    apply (Hdis n Hin). apply list_elem_of_here.
Qed.

(** Every write leaves a folder of files that decode when it had only
    such files and writes one. *)
Lemma file_decodes (name data : string) (files : list (string * string)) :
  JSZip.decodes data = true → JSZip.generates files = true →
  JSZip.generates (JSZip.file name data files) = true.
Proof.
  intros Hd. unfold JSZip.generates.
  induction files as [|[n d] files IH]; simpl.
  - by rewrite Hd.
  - intros [Hd1 Hrest]%andb_prop.
    destruct (String.eqb n name); simpl.
    + by rewrite Hd, Hrest.
    + by rewrite Hd1, IH.
Qed.

Lemma writes_decode (entries folder : list (string * string)) :
  Forall (λ entry, JSZip.decodes entry.2 = true) entries →
  JSZip.generates folder = true →
  JSZip.generates
    (fold_left (λ files entry, JSZip.file entry.1 entry.2 files) entries folder)
  = true.
Proof.
  intros Hall. revert folder.
  induction Hall as [|[n d] entries Hd _ IH]; intros folder Hf; [done|].
  cbn [fold_left]. apply IH. by apply file_decodes.
Qed.

Lemma pngEntries (scs : list Scene) :
  Forall generatedImage scs →
  (omap pngEntry scs).*1 = imageFileName <$> withImage scs ∧
  Forall (λ entry, JSZip.decodes entry.2 = true) (omap pngEntry scs).
Proof.
  unfold withImage.
  induction 1 as [|s scs Hs _ [IH1 IH2]]; [by split|].
  rewrite omap_cons. cbn [List.filter].
  destruct (pngEntry_cases s Hs)
    as [[Hu ->]|(data & Hu & Hne & Hnc & Hdec & ->)]; rewrite Hu.
  - by rewrite bool_decide_eq_false_2 by (by intros [? ?]).
  - rewrite bool_decide_eq_true_2 by done. split.
    + rewrite !fmap_cons. by rewrite IH1.
    + by apply Forall_cons.
Qed.

(** X14. When every image of the project is a PNG data URL as image
    generation returns it for a base64 payload (not empty, without a
    comma, taken by the decoder of the archive), export downloads the
    archive; its [images] folder is what results from writing, in scene
    order, for each scene that has an image the payload of its URL under
    the name made of the scene number, a later write replacing the file
    of the same name; when no two scenes with an image have the same
    file name, that is one file per scene with an image, in scene
    order. *)
Theorem export_writes_generated_images (w : World) :
  let scs := scenes (app w) in
  Forall generatedImage scs →
  ∃ zip,
    trace (fire handleExport w) =
      trace w ++ [Download "storyboard-project.zip" zip] ∧
    images_folder zip =
      fold_left (λ files entry, JSZip.file entry.1 entry.2 files)
                (omap pngEntry scs) [] ∧
    (NoDup (imageFileName <$> withImage scs) →
     images_folder zip = omap pngEntry scs ∧
     (images_folder zip).*1 = imageFileName <$> withImage scs).
Proof.
  intros scs Hall. unfold fire, handleExport. fold scs.
  destruct (pngEntries scs Hall) as [Hnames Hdec].
  rewrite (export_folder scs [] Hall).
  rewrite (writes_decode _ [] Hdec eq_refl).
  eexists. split; [reflexivity|]. simpl. split; [done|].
  intros Hnd. rewrite writes_distinct; [done|].
  rewrite Hnames. exact Hnd.
Qed.

(** ** Image requests and the batch of images without a credential *)

Lemma conditioning_inline (c : Character) (part : Genai.Part.t) :
  conditioning c = Some part → is_Some (Genai.Part.inlineData part).
Proof.
  unfold conditioning. destruct (referenceImage c) as [url|]; [|done].
  destruct (DataUri.exec url) as [[m d]|]; [|done]. intros [= <-]. by eexists.
Qed.

Lemma inlineParts_imageRequest (prompt style : string) (cs : list Character) :
  inlineParts (imageRequest prompt style cs) = omap conditioning cs.
Proof.
  unfold inlineParts, imageRequest, imageParts. simpl.
  rewrite fold_push_reference, List.filter_app. simpl.
  rewrite app_nil_r.
  induction cs as [|c cs IH]; [done|]. rewrite omap_cons.
  destruct (conditioning c) as [part|] eqn:E; [|exact IH].
  simpl. rewrite bool_decide_eq_true_2 by by eapply conditioning_inline.
  by rewrite IH.
Qed.

Lemma isSelected_spec (scene : Scene) (c : Character) :
  isSelected scene c = true ↔ id c ∈ selection scene.
Proof.
  unfold isSelected, selection.
  destruct (selectedCharacterIds scene) as [ids|]; simpl.
  - apply includes_spec.
  - split; [done|]. by intros ?%elem_of_nil.
Qed.

(** X15. The image parts of the request for a scene are those of the
    characters of the cast that the scene selects, in cast order: a part
    is sent exactly when it is the reference of a selected character of
    the cast, and there are at most as many parts as selected
    characters. *)
Theorem image_request_carries_selected_cast (closure : AppState) (scene : Scene) :
  inlineParts (sceneImageRequest closure scene) =
    omap conditioning (selectedChars closure scene) ∧
  (∀ part, part ∈ inlineParts (sceneImageRequest closure scene) ↔
     ∃ c, c ∈ casting closure ∧ id c ∈ selection scene ∧
          conditioning c = Some part) ∧
  length (inlineParts (sceneImageRequest closure scene))
    ≤ length (List.filter (λ c, bool_decide (id c ∈ selection scene))
                          (casting closure)).
Proof.
  unfold sceneImageRequest. rewrite inlineParts_imageRequest.
  split; [done|]. split.
  - intros part. rewrite list_elem_of_omap. unfold selectedChars. split.
    + intros (c & Hc & Hp). apply list_elem_of_In, List.filter_In in Hc as [Hc Hs].
      exists c. split; [by apply list_elem_of_In|].
      split; [by apply isSelected_spec|done].
    + intros (c & Hc & Hs & Hp). exists c. split; [|done].
      apply list_elem_of_In, List.filter_In. split; [by apply list_elem_of_In|].
      by apply isSelected_spec.
  - unfold selectedChars.
    rewrite (List.filter_ext (isSelected scene)
               (λ c, bool_decide (id c ∈ selection scene))).
    + generalize (List.filter (λ c, bool_decide (id c ∈ selection scene))
                              (casting closure)).
      intros l. induction l as [|c l IH]; [done|]. rewrite omap_cons.
      destruct (conditioning c); simpl; lia.
    + intros c. apply eq_true_iff_eq.
      by rewrite isSelected_spec, bool_decide_eq_true.
Qed.

Section NoCredential.

Variable KEY : option string.
Variable gc : list Event → string → Genai.Request → Error + Genai.Response.t.

Lemma no_key_outcome (closure : AppState) (scene : Scene) (tr : list Event) :
  noCredential KEY →
  imageOutcome KEY gc closure scene tr = inl MISSING_KEY ∧
  ∀ request, attempt KEY request = [].
Proof.
  unfold noCredential, imageOutcome, generateImageForScene, attempt.
  by destruct KEY as [[|c k]|].
Qed.

Lemma assign_images (i : nat) (f : Scene → Scene) (l : list Scene) :
  (∀ s, imageUrl (f s) = imageUrl s) →
  imageUrl <$> assign i f l = imageUrl <$> l.
Proof.
  intros Hf. apply list_eq. intros j. unfold assign.
  rewrite !list_lookup_fmap.
  destruct (decide (i = j)) as [->|Hne].
  - rewrite list_lookup_alter_eq. destruct (l !! j); simpl; [|done]. by rewrite Hf.
  - by rewrite list_lookup_alter_ne.
Qed.

Lemma imageTurns_no_key (closure : AppState) (l : list nat) (w : World) :
  noCredential KEY →
  (∀ i, i ∈ l → is_Some (scenes closure !! i)) →
  let w' := fold_left (imageTurn KEY gc closure) l w in
  requests (trace w') = requests (trace w) ∧
  alerts (trace w') =
    alerts (trace w) ++
    map (λ s, "Erro ao gerar imagem para a cena " +:+
              JS.string_of_number (sceneNumber s) +:+ ": " +:+
              message MISSING_KEY)
        (omap (λ i, scenes closure !! i) l) ∧
  imageUrl <$> scenes (app w') = imageUrl <$> scenes (app w).
Proof.
  intros Hno. revert w. induction l as [|i l IH]; intros w Hl; simpl.
  - by rewrite app_nil_r.
  - destruct (Hl i) as [s Hs]; [apply list_elem_of_here|].
    destruct (IH (imageTurn KEY gc closure w i)) as (Hr & Ha & Hu).
    { intros k Hk. apply Hl. by apply list_elem_of_further. }
    destruct (no_key_outcome closure s (trace w) Hno) as [Hout Hatt].
    rewrite Hr, Ha, Hu, Hs. unfold imageTurn. simpl.
    rewrite (handleGenerateImage_run KEY gc i closure w s Hs), Hout, Hatt.
    simpl. rewrite !requests_app, !alerts_app. simpl.
    rewrite !app_nil_r, <- app_assoc. split; [done|]. split; [done|].
    by apply assign_images.
Qed.

(** X16. Without a credential the batch of images sends no request,
    alerts once per scene that has no image yet, is not generating and
    has a non-empty prompt, in order, with the number of the scene as a
    template literal prints it and the message of the missing key, and
    leaves the image of every scene as it was. *)
Theorem batch_of_images_without_credential (w : World) :
  noCredential KEY →
  let scs := scenes (app w) in
  let w' := fire (handleGenerateAllImages KEY gc) w in
  requests (trace w') = requests (trace w) ∧
  alerts (trace w') =
    alerts (trace w) ++
    map (λ s, "Erro ao gerar imagem para a cena " +:+
              JS.string_of_number (sceneNumber s) +:+
              ": GEMINI_API_KEY is missing")
        (List.filter (λ s, bool_decide (eligible s)) scs) ∧
  imageUrl <$> scenes (app w') = imageUrl <$> scs.
Proof.
  intros Hno scs w'. subst w' scs. unfold fire.
  rewrite handleGenerateAllImages_targets.
  destruct (imageTurns_no_key (app w) (imageTargets (scenes (app w))) w Hno)
    as (Hr & Ha & Hu).
  { intros i (s & Hs & _)%filter_lookup_spec. by exists s. }
  split; [exact Hr|]. split; [|exact Hu].
  rewrite Ha. unfold imageTargets.
  rewrite (omap_lookup_filter wantsImage (scenes (app w))).
  by rewrite (List.filter_ext _ _ wantsImage_eligible).
Qed.

(** X17. After single-scene image generation the image area of the scene
    never shows the spinner: it shows the returned picture on success,
    and on failure, for a scene that had no image, the button again. *)
Theorem image_area_after_generation (w : World) (i : nat) (s : Scene) :
  scenes (app w) !! i = Some s →
  ∃ s',
    scenes (app (fire (handleGenerateImage KEY gc i) w)) !! i = Some s' ∧
    imageArea s' ≠ Spinner ∧
    (∀ url, imageOutcome KEY gc (app w) s (trace w) = inr url →
            url ≠ EmptyString → imageArea s' = Picture url) ∧
    (∀ err, imageOutcome KEY gc (app w) s (trace w) = inl err →
            JS.truthy_opt (imageUrl s) = false →
            imageArea s' =
              GenerateButton (negb (JS.truthy (JS.trim (visualPrompt s))))).
Proof.
  intros Hi. unfold fire.
  rewrite (handleGenerateImage_run KEY gc i (app w) w s Hi). simpl.
  unfold assign. rewrite list_lookup_alter_eq, Hi. simpl.
  eexists. split; [reflexivity|].
  destruct (imageOutcome _ _ _ _ _) as [err|url]; unfold imageArea; simpl.
  - split; [by destruct (imageUrl s) as [[|]|]|].
    split; [done|]. intros ? _ Hu. by destruct (imageUrl s) as [[|]|].
  - split; [by destruct url|]. split; [|done].
    intros ? [= <-] Hne. by destruct url.
Qed.

End NoCredential.

(** ** Batches with nothing to do *)

Lemma no_targets (p : Scene → bool) (scs : list Scene) :
  Forall (λ s, p s = false) scs →
  List.filter (λ i, match scs !! i with Some s => p s | None => false end)
              (seq 0 (length scs)) = [].
Proof.
  intros Hall. apply filter_none. apply Forall_forall. intros i _.
  destruct (scs !! i) as [s|] eqn:E; [|done].
  rewrite Forall_lookup in Hall. by apply (Hall i).
Qed.

Section Finished.

Variable KEY : option string.
Variable gc : list Event → string → Genai.Request → Error + Genai.Response.t.

(** X18. A batch with nothing to do does nothing: when no scene passes
    the test of the batch of images, this batch leaves the world as it
    is, and so does the batch of prompts when every scene has a prompt. *)
Theorem finished_batches_do_nothing (w : World) :
  (Forall (λ s, wantsImage s = false) (scenes (app w)) →
     fire (handleGenerateAllImages KEY gc) w = w) ∧
  (Forall (λ s, visualPrompt s ≠ EmptyString) (scenes (app w)) →
     fire (handleGenerateAllPrompts KEY gc) w = w).
Proof.
  unfold fire. split; intros Hall.
  - rewrite handleGenerateAllImages_targets. unfold imageTargets.
    by rewrite (no_targets wantsImage) by exact Hall.
  - rewrite handleGenerateAllPrompts_targets. unfold promptTargets.
    rewrite (no_targets (λ s, negb (JS.truthy (visualPrompt s)))); [done|].
    eapply Forall_impl; [exact Hall|]. intros s. simpl.
    by destruct (visualPrompt s).
Qed.

End Finished.

(** ** Instances of the properties above *)

Lemma sample_project_numbered : wellNumbered (scenes Sample.project).
Proof.
  intros [|[|[|i]]] s; simpl; intros [= <-]; done.
Qed.

Lemma sample_project_generated : Forall generatedImage (scenes Sample.project).
Proof.
  repeat (apply Forall_cons; split); [| | |constructor].
  - by left.
  - right. exists "AAAA". by repeat split.
  - by left.
Qed.

(** The first sample scene has a prompt; a silent service blanks it. *)
Lemma textless_answer_blanks_the_prompt_witness :
  let w := fire (handleGeneratePromptForScene (Some "key") Sample.silent 0)
                (mkWorld Sample.project []) in
  visualPrompt Sample.door = "A door, ajar, at night" ∧
  scenes (app w) !! 0 = Some (with_visualPrompt EmptyString Sample.door) ∧
  alerts (trace w) = [].
Proof.
  split; [reflexivity|].
  destruct (textless_answer_blanks_the_prompt (Some "key") Sample.silent "key"
              (mkWorld Sample.project []) 0 Sample.door
              (Genai.Response.mk None None)
              eq_refl eq_refl eq_refl eq_refl eq_refl) as (H1 & _ & H3).
  split; [exact H1 | exact H3].
Defined.

(** Casting the second character in the first sample scene, twice. *)
Lemma toggle_flips_membership_witness :
  ∃ s1 s2,
    scenes (app (fire (toggleCharacterInScene 0 "c-bob")
                      (mkWorld Sample.project []))) !! 0 = Some s1 ∧
    scenes (app (fire (toggleCharacterInScene 0 "c-bob")
                   (fire (toggleCharacterInScene 0 "c-bob")
                         (mkWorld Sample.project [])))) !! 0 = Some s2 ∧
    ("c-bob" ∈ selection s1 ↔ "c-bob" ∉ selection Sample.door) ∧
    (∀ x, x ∈ selection s2 ↔ x ∈ selection Sample.door).
Proof.
  destruct (toggle_flips_membership (mkWorld Sample.project []) 0 "c-bob"
              Sample.door eq_refl)
    as (s1 & s2 & H1 & H2 & H3 & _ & H5 & _).
  exists s1, s2. repeat split; try done; apply H3 || apply H5.
Defined.

(** A new id on the sample project. *)
Lemma add_then_remove_restores_witness :
  app (fire (handleRemoveCharacter "c-eve")
         (fire (handleAddCharacter "c-eve") (mkWorld Sample.project [])))
    = Sample.project.
Proof.
  apply (add_then_remove_restores "c-eve" (mkWorld Sample.project [])).
  - intros H. repeat (apply elem_of_cons in H as [[=]|H]). by apply elem_of_nil in H.
  - exact sample_project_ok.
Defined.

(** One line added to the sample project. *)
Lemma batch_add_keeps_numbering_witness :
  wellNumbered
    (scenes (app (fire handleBatchAddScenes
                       (mkWorld (setBatchScenesText "Dusk." Sample.project) [])))).
Proof.
  apply (batch_add_keeps_numbering
           (mkWorld (setBatchScenesText "Dusk." Sample.project) [])).
  exact sample_project_numbered.
Defined.

(** The first sample scene deleted, one line added: two scenes numbered 3. *)
Lemma delete_then_batch_add_repeats_a_number_witness :
  let w := mkWorld (setBatchScenesText "Dusk." Sample.project) [] in
  let w' := fire handleBatchAddScenes (fire (onDeleteScene 0) w) in
  sceneNumber <$> scenes (app w') = [2; 3; 3]%Z ∧
  ∃ s1 s2,
    scenes (app w') !! 1 = Some s1 ∧ scenes (app w') !! 2 = Some s2 ∧
    imageFileName s1 = imageFileName s2.
Proof.
  split; [reflexivity|].
  destruct (delete_then_batch_add_repeats_a_number
              (mkWorld (setBatchScenesText "Dusk." Sample.project) []) 0
              sample_project_numbered ltac:(simpl; lia) eq_refl)
    as (s1 & s2 & H1 & H2 & _ & _ & _ & H6).
  exists s1, s2. split; [exact H1|]. split; [exact H2 | exact H6].
Defined.

(** A prompt of three spaces. *)
Lemma blank_prompt_button_disabled_but_batch_runs_witness :
  let s := mkScene 4 "Dusk." "" (Some []) "   " None None in
  imageArea s = GenerateButton true ∧ wantsImage s = true.
Proof.
  apply (blank_prompt_button_disabled_but_batch_runs
           (mkScene 4 "Dusk." "" (Some []) "   " None None));
    reflexivity || discriminate.
Defined.

(** A silent service: one request, the no-response error. *)
Lemma storyboard_outcomes_witness :
  generateStoryboard (Some "key") Sample.silent Sample.no_scenes
                     "noir" "A door opens." [] =
    ([NetCall "key" (storyboardRequest "noir" "A door opens.")], inl NO_RESPONSE).
Proof.
  destruct (storyboard_outcomes (Some "key") Sample.silent Sample.no_scenes
              "key" "noir" "A door opens." [] eq_refl eq_refl)
    as (_ & _ & H & _).
  exact (H (Genai.Response.mk None None) eq_refl eq_refl).
Defined.

(** A service that answers with one image. *)
Lemma image_outcomes_witness :
  (generateImageForScene (Some "key") Sample.painter "A door, ajar" "noir"
                         [Sample.ann] []).1 =
    [NetCall "key" (imageRequest "A door, ajar" "noir" [Sample.ann])] ∧
  ((generateImageForScene (Some "key") Sample.painter "A door, ajar" "noir"
                          [Sample.ann] []).2 = inl NO_IMAGE ↔
   Forall (λ p, Genai.Part.inlineData p = None)
          [Genai.Part.mk (Some (Genai.mkInlineData "image/png" "iVBORw0KGgo")) None]).
Proof.
  destruct (image_outcomes (Some "key") Sample.painter "key" "A door, ajar" "noir"
              [Sample.ann] [] _ eq_refl eq_refl eq_refl) as (H1 & H2 & _).
  split; [exact H1 | exact H2].
Defined.

(** The sample project has one image, on its second scene. *)
Lemma export_writes_generated_images_witness :
  ∃ zip,
    trace (fire handleExport (mkWorld Sample.project [])) =
      [Download "storyboard-project.zip" zip] ∧
    images_folder zip = [("cena_2.png", "AAAA")].
Proof.
  destruct (export_writes_generated_images (mkWorld Sample.project [])
              sample_project_generated) as (zip & H1 & H2 & _).
  exists zip. split; [exact H1 | exact H2].
Defined.

(** The sample project without a key: one alert, for its first scene. *)
Lemma batch_of_images_without_credential_witness :
  let w := fire (handleGenerateAllImages None Sample.painter)
                (mkWorld Sample.project []) in
  requests (trace w) = [] ∧
  alerts (trace w) =
    ["Erro ao gerar imagem para a cena 1: GEMINI_API_KEY is missing"] ∧
  imageUrl <$> scenes (app w) = imageUrl <$> scenes Sample.project.
Proof.
  apply (batch_of_images_without_credential None Sample.painter
           (mkWorld Sample.project [])). reflexivity.
Defined.

(** The first sample scene gets its picture. *)
Lemma image_area_after_generation_witness :
  ∃ s',
    scenes (app (fire (handleGenerateImage (Some "key") Sample.painter 0)
                      (mkWorld Sample.project []))) !! 0 = Some s' ∧
    imageArea s' = Picture "data:image/png;base64,iVBORw0KGgo".
Proof.
  destruct (image_area_after_generation (Some "key") Sample.painter
              (mkWorld Sample.project []) 0 Sample.door eq_refl)
    as (s' & H1 & _ & H3 & _).
  exists s'. split; [exact H1|].
  apply H3; [reflexivity | discriminate].
Defined.
